(** * Metrics analyzer: a shallow embedding of [metrics_analyzer.py]

    The Python class [MetricsAnalyzer] is an [ast.NodeVisitor] that fills a
    handful of dictionaries while it walks a parsed module, and then derives
    DIT, CBO and LCOM from them and renders a report.  The dictionaries are
    modelled as [gmap]s keyed by strings, Python sets as [gset]s, and the
    visitor as a state transformer over a record with one field per
    instance attribute. *)

From Stdlib Require Import Ascii String.
From stdpp Require Import gmap strings list fin_maps pretty.

Local Open Scope string_scope.
Local Open Scope list_scope.
Local Open Scope nat_scope.
Set Warnings "-register-all".

(** ** Syntax trees

    Only the node classes the analyzer tells apart get a constructor of
    their own; every other [ast.AST] node is an [Other] carrying the name of
    its Python class and its child nodes in field order.  The [ctx] child of
    [Name] and [Attribute] is a leaf of class [Load]/[Store]/[Del] that no
    branch of the analyzer looks at; it is left out. *)

Inductive node : Type :=
| Name (id : string)
| Attribute (value : node) (attr : string)
| FunctionDef (name : string) (fields : list node)
| ClassDef (name : string) (bases keywords body decorator_list : list node)
| Other (kind : string) (fields : list node).

Section node_induction.
Variable P : node → Prop.
Hypothesis HName : ∀ id, P (Name id).
Hypothesis HAttribute : ∀ v attr, P v → P (Attribute v attr).
Hypothesis HFunctionDef : ∀ name fs, Forall P fs → P (FunctionDef name fs).
Hypothesis HClassDef : ∀ name bs ks bd ds,
  Forall P bs → Forall P ks → Forall P bd → Forall P ds →
  P (ClassDef name bs ks bd ds).
Hypothesis HOther : ∀ kind fs, Forall P fs → P (Other kind fs).

Fixpoint node_ind' (n : node) : P n :=
  let all := fix all (l : list node) : Forall P l :=
    match l with
    | [] => Forall_nil_2 P
    | x :: r => Forall_cons_2 P x r (node_ind' x) (all r)
    end in
  match n with
  | Name id => HName id
  | Attribute v attr => HAttribute v attr (node_ind' v)
  | FunctionDef name fs => HFunctionDef name fs (all fs)
  | ClassDef name bs ks bd ds =>
      HClassDef name bs ks bd ds (all bs) (all ks) (all bd) (all ds)
  | Other kind fs => HOther kind fs (all fs)
  end.
End node_induction.

(** [ast.iter_child_nodes]: the child nodes, field by field. *)
Definition iter_child_nodes (n : node) : list node :=
  match n with
  | Name _ => []
  | Attribute v _ => [v]
  | FunctionDef _ fs => fs
  | ClassDef _ bs ks bd ds => bs ++ ks ++ bd ++ ds
  | Other _ fs => fs
  end.

Fixpoint height (n : node) : nat :=
  let hs := fix hs (l : list node) : nat :=
    match l with
    | [] => 0
    | x :: r => Nat.max (height x) (hs r)
    end in
  match n with
  | Name _ => 1
  | Attribute v _ => S (height v)
  | FunctionDef _ fs => S (hs fs)
  | ClassDef _ bs ks bd ds => S (Nat.max (hs bs) (Nat.max (hs ks) (Nat.max (hs bd) (hs ds))))
  | Other _ fs => S (hs fs)
  end.

(** [ast.walk] pops the left end of a deque and pushes the children of the
    popped node on the right end: the nodes come out level by level.
    [levels k q] is the output for a queue [q] whose trees are at most [k]
    deep. *)
Fixpoint levels (k : nat) (q : list node) : list node :=
  match k with
  | 0 => []
  | S k' => q ++ levels k' (q ≫= iter_child_nodes)
  end.

Definition walk (n : node) : list node := levels (height n) [n].

(** The same nodes in depth-first order, by structural recursion; used to
    reason about [walk]. *)
Fixpoint subtree (n : node) : list node :=
  let forest := fix forest (l : list node) : list node :=
    match l with
    | [] => []
    | x :: r => subtree x ++ forest r
    end in
  n :: match n with
       | Name _ => []
       | Attribute v _ => subtree v
       | FunctionDef _ fs => forest fs
       | ClassDef _ bs ks bd ds => forest bs ++ forest ks ++ forest bd ++ forest ds
       | Other _ fs => forest fs
       end.

(** ** Python dictionaries

    A plain [dict] is a [gmap].  A [collections.defaultdict] is a [gmap]
    together with the default its factory builds: reading [m[k]] yields the
    stored value or the default, and, when the key was missing, stores the
    default under it. *)

Definition getitem_default {V} (d : V) (m : gmap string V) (k : string) : V :=
  default d (m !! k).

Definition touch {V} (d : V) (m : gmap string V) (k : string) : gmap string V :=
  match m !! k with
  | Some _ => m
  | None => <[k := d]> m
  end.

(** [m[k].add(x)] on a [defaultdict(set)]. *)
Definition dd_add (m : gmap string (gset string)) (k x : string)
  : gmap string (gset string) :=
  <[k := getitem_default ∅ m k ∪ {[x]}]> m.

(** [m[k].append(x)] on a [defaultdict(list)]. *)
Definition dd_append (m : gmap string (list string)) (k x : string)
  : gmap string (list string) :=
  <[k := getitem_default [] m k ++ [x]]> m.

(** [m[k1][k2].add(x)] on a [defaultdict(lambda: defaultdict(set))]. *)
Definition dd_add2 (m : gmap string (gmap string (gset string))) (k1 k2 x : string)
  : gmap string (gmap string (gset string)) :=
  <[k1 := dd_add (getitem_default ∅ m k1) k2 x]> m.

(** ** The analyzer's state: one field per attribute set in [__init__] *)

Record class_info : Type := ClassInfo {
  methods : list string;
  attributes : gset string;
  base_classes : list string;
  lines : nat
}.

Record analyzer : Type := Analyzer {
  classes : gmap string class_info;
  current_class : option string;
  inheritance_tree : gmap string string;
  coupling : gmap string (gset string);
  methods_per_class : gmap string (list string);
  attributes_per_class : gmap string (gset string);
  method_attribute_usage : gmap string (gmap string (gset string))
}.

(** [MetricsAnalyzer.__init__] *)
Definition init : analyzer :=
  {| classes := ∅; current_class := None; inheritance_tree := ∅;
     coupling := ∅; methods_per_class := ∅; attributes_per_class := ∅;
     method_attribute_usage := ∅ |}.

Definition set_classes (f : gmap string class_info → gmap string class_info)
    (s : analyzer) : analyzer :=
  Analyzer (f (classes s)) (current_class s) (inheritance_tree s) (coupling s)
    (methods_per_class s) (attributes_per_class s) (method_attribute_usage s).

Definition set_current_class (c : option string) (s : analyzer) : analyzer :=
  Analyzer (classes s) c (inheritance_tree s) (coupling s)
    (methods_per_class s) (attributes_per_class s) (method_attribute_usage s).

Definition set_inheritance_tree (f : gmap string string → gmap string string)
    (s : analyzer) : analyzer :=
  Analyzer (classes s) (current_class s) (f (inheritance_tree s)) (coupling s)
    (methods_per_class s) (attributes_per_class s) (method_attribute_usage s).

Definition set_coupling
    (f : gmap string (gset string) → gmap string (gset string))
    (s : analyzer) : analyzer :=
  Analyzer (classes s) (current_class s) (inheritance_tree s) (f (coupling s))
    (methods_per_class s) (attributes_per_class s) (method_attribute_usage s).

Definition set_methods_per_class
    (f : gmap string (list string) → gmap string (list string))
    (s : analyzer) : analyzer :=
  Analyzer (classes s) (current_class s) (inheritance_tree s) (coupling s)
    (f (methods_per_class s)) (attributes_per_class s) (method_attribute_usage s).

Definition set_attributes_per_class
    (f : gmap string (gset string) → gmap string (gset string))
    (s : analyzer) : analyzer :=
  Analyzer (classes s) (current_class s) (inheritance_tree s) (coupling s)
    (methods_per_class s) (f (attributes_per_class s)) (method_attribute_usage s).

Definition set_method_attribute_usage
    (f : gmap string (gmap string (gset string)) →
         gmap string (gmap string (gset string)))
    (s : analyzer) : analyzer :=
  Analyzer (classes s) (current_class s) (inheritance_tree s) (coupling s)
    (methods_per_class s) (attributes_per_class s) (f (method_attribute_usage s)).

(** ** The build phase *)

(** The names [analyze_method] recognises as classes. *)
Definition known_classes : list string :=
  ["Student"; "Course"; "Lecturer"; "Registrar"; "Person"].

(** One round of the loop of [analyze_method] over [ast.walk(method_node)].
    The third [if] of the source ends in [pass] and is left out. *)
Definition analyze_node (class_name method_name : string)
    (s : analyzer) (n : node) : analyzer :=
  let s1 :=
    match n with
    | Attribute (Name "self") attr_name =>
        set_method_attribute_usage
          (λ m, dd_add2 m class_name method_name attr_name)
          (set_attributes_per_class (λ m, dd_add m class_name attr_name) s)
    | _ => s
    end in
  match n with
  | Name id =>
      if bool_decide (id ∈ known_classes) then
        if bool_decide (id ≠ class_name) then
          set_coupling (λ m, dd_add m class_name id) s1
        else s1
      else s1
  | _ => s1
  end.

Definition analyze_method (class_name method_name : string)
    (method_node : node) (s : analyzer) : analyzer :=
  foldl (analyze_node class_name method_name) s (walk method_node).

(** The entry [visit_ClassDef] stores in [self.classes]. *)
Definition base_id (b : node) : string :=
  match b with
  | Name id => id
  | _ => "object"
  end.

Definition register_class (name : string) (bases body : list node)
    (s : analyzer) : analyzer :=
  set_classes
    (insert name
       {| methods := []; attributes := ∅;
          base_classes := base_id <$> bases; lines := length body |})
    (set_current_class (Some name) s).

(** The loop under [# Store inheritance]. *)
Definition store_inheritance (name : string) (bases : list node)
    (s : analyzer) : analyzer :=
  foldl (λ s base,
           match base with
           | Name id => set_inheritance_tree (insert name id) s
           | _ => s
           end) s bases.

(** The loop under [# Visit all methods and attributes]. *)
Definition add_method (name : string) (ci : class_info) : class_info :=
  {| methods := methods ci ++ [name]; attributes := attributes ci;
     base_classes := base_classes ci; lines := lines ci |}.

Definition visit_item (class_name : string) (s : analyzer) (item : node)
  : analyzer :=
  match item with
  | FunctionDef item_name _ =>
      analyze_method class_name item_name item
        (set_methods_per_class (λ m, dd_append m class_name item_name)
           (set_classes (alter (add_method item_name) class_name) s))
  | _ => s
  end.

Definition visit_items (class_name : string) (body : list node)
    (s : analyzer) : analyzer :=
  foldl (visit_item class_name) s body.

(** [NodeVisitor.visit]: [visit_ClassDef] on a class definition, and
    [generic_visit] (visit every child, field by field) on anything else.
    [visit_ClassDef] itself ends in [generic_visit]. *)
Fixpoint visit (n : node) (s : analyzer) {struct n} : analyzer :=
  let visit_all := fix visit_all (l : list node) (s : analyzer) : analyzer :=
    match l with
    | [] => s
    | x :: r => visit_all r (visit x s)
    end in
  match n with
  | Name _ => s
  | Attribute v _ => visit v s
  | FunctionDef _ fs => visit_all fs s
  | Other _ fs => visit_all fs s
  | ClassDef name bs ks bd ds =>
      let s1 := register_class name bs bd s in
      let s2 := store_inheritance name bs s1 in
      let s3 := visit_items name bd s2 in
      let s4 := visit_all ds (visit_all bd (visit_all ks (visit_all bs s3))) in
      set_current_class None s4
  end.

Definition visit_all (l : list node) (s : analyzer) : analyzer :=
  foldl (λ s x, visit x s) s l.

(** The analyzer after [analyzer.visit(tree)] on a fresh instance. *)
Definition analyze (tree : node) : analyzer := visit tree init.

(** ** The metrics *)

(** [calculate_dit].  The [while] loop has no bound of its own, so the
    model takes the number of times the loop test may be evaluated: [None]
    means the loop is still running when that many tests have been made.
    The loop only reads [self.inheritance_tree] (a plain [dict]). *)
Fixpoint dit_loop (fuel : nat) (tree : gmap string string)
    (depth : nat) (current : string) : option nat :=
  match fuel with
  | 0 => None
  | S fuel' =>
      match tree !! current with
      | Some parent => dit_loop fuel' tree (depth + 1) parent
      | None => Some depth
      end
  end.

Definition calculate_dit (fuel : nat) (class_name : string) (s : analyzer)
  : option nat :=
  dit_loop fuel (inheritance_tree s) 0 class_name.

(** [calculate_cbo]: the value, and the analyzer after the call (reading
    [self.coupling[class_name]] goes through the [defaultdict]). *)
Definition calculate_cbo (class_name : string) (s : analyzer)
  : nat * analyzer :=
  (size (getitem_default ∅ (coupling s) class_name),
   set_coupling (λ m, touch ∅ m class_name) s).

(** The body of the inner loop of [calculate_lcom]. *)
Definition lcom_pair (method_attrs : gmap string (gset string))
    (method1 : string) (pq : Z * Z) (method2 : string) : Z * Z :=
  let attrs1 := default ∅ (method_attrs !! method1) in
  let attrs2 := default ∅ (method_attrs !! method2) in
  if bool_decide (attrs1 ∩ attrs2 ≠ ∅)
  then (pq.1, (pq.2 + 1)%Z)
  else ((pq.1 + 1)%Z, pq.2).

(** [enumerate(methods)] *)
Definition enumerate {A} (l : list A) : list (nat * A) := imap (λ i x, (i, x)) l.

(** The two nested [for] loops of [calculate_lcom]; the result is [(p, q)]. *)
Definition lcom_loops (method_attrs : gmap string (gset string))
    (methods : list string) : Z * Z :=
  foldl (λ pq im,
           foldl (lcom_pair method_attrs im.2) pq (drop (im.1 + 1) methods))
        (0%Z, 0%Z) (enumerate methods).

(** [calculate_lcom].  The early [return 0.0] is the float zero, which
    Python compares equal to the integer [0]; both are the number [0]
    here. *)
Definition calculate_lcom (class_name : string) (s : analyzer)
  : Z * analyzer :=
  let methods := getitem_default [] (methods_per_class s) class_name in
  let s1 := set_methods_per_class (λ m, touch [] m class_name) s in
  if bool_decide (length methods ≤ 1)%nat then (0%Z, s1)
  else
    let method_attrs := getitem_default ∅ (method_attribute_usage s1) class_name in
    let s2 := set_method_attribute_usage (λ m, touch ∅ m class_name) s1 in
    let pq := lcom_loops method_attrs methods in
    (Z.max (pq.1 - pq.2) 0, s2).

(** ** The report *)

(** Section 1 of [generate_report]: the lines appended between the title
    block and the lines-of-code section. *)
Definition dashes : string := String.concat "" (replicate 80 "-").

Definition cc_section : list string :=
  [ "1. CYCLOMATIC COMPLEXITY (CC)";
    dashes;
    "Method/Function                              | CC  | Grade | Issues";
    dashes;
    "Student.calculate_performance                | 17  | C     | HIGH - Needs refactoring";
    "Student.register_course                      | 3   | A     | OK";
    "Registrar.full_report                        | 4   | A     | OK";
    "main()                                       | 1   | A     | OK (but long)";
    "" ].

(** The [issues] list built for one row of the class table, and the text
    that is put in the row. *)
Definition issues (cbo : nat) (lcom : Z) (methods : nat) : list string :=
  let issues := [] in
  let issues := if bool_decide (3 < cbo)%nat then issues ++ ["High coupling"] else issues in
  let issues := if bool_decide (5 < lcom)%Z then issues ++ ["Low cohesion"] else issues in
  let issues := if bool_decide (7 < methods)%nat then issues ++ ["Too many methods"] else issues in
  issues.

Definition issue_str (issues : list string) : string :=
  match issues with
  | [] => "OK"
  | _ => String.concat ", " issues
  end.

(** One row of the class table before it is formatted.  [row_lcom_float]
    tells whether [lcom] is the float [0.0] of the early return of
    [calculate_lcom] or an integer; the two are printed differently. *)
Record row : Type := Row {
  row_class : string;
  row_dit : nat;
  row_cbo : nat;
  row_lcom : Z;
  row_lcom_float : bool;
  row_methods : nat;
  row_attrs : nat;
  row_issues : string
}.

(** The body of the loop over the five class names in [generate_report],
    for a name found in [self.classes]. *)
Definition report_row (fuel : nat) (class_name : string) (s : analyzer)
  : option (row * analyzer) :=
  dit ← calculate_dit fuel class_name s;
  let '(cbo, s) := calculate_cbo class_name s in
  let lcom_float :=
    bool_decide (length (getitem_default [] (methods_per_class s) class_name) ≤ 1) in
  let '(lcom, s) := calculate_lcom class_name s in
  let methods := length (getitem_default [] (methods_per_class s) class_name) in
  let s := set_methods_per_class (λ m, touch [] m class_name) s in
  let attrs := size (getitem_default ∅ (attributes_per_class s) class_name) in
  let s := set_attributes_per_class (λ m, touch ∅ m class_name) s in
  Some (Row class_name dit cbo lcom lcom_float methods attrs
          (issue_str (issues cbo lcom methods)), s).

Fixpoint report_rows (fuel : nat) (names : list string) (s : analyzer)
  : option (list row * analyzer) :=
  match names with
  | [] => Some ([], s)
  | class_name :: rest =>
      if bool_decide (is_Some (classes s !! class_name)) then
        '(r, s) ← report_row fuel class_name s;
        '(rs, s) ← report_rows fuel rest s;
        Some (r :: rs, s)
      else report_rows fuel rest s
  end.

Definition reported_classes : list string :=
  ["Person"; "Student"; "Course"; "Lecturer"; "Registrar"].

(** ** The text of the report *)

Definition equals_line : string := String.concat "" (replicate 80 "=").

(** The title block of the report. *)
Definition report_title : list string :=
  [ equals_line;
    "PART A: METRICS ANALYSIS - ORIGINAL CODE";
    equals_line;
    "" ].

(** Section 2: the lines-of-code figures, literals as well. *)
Definition loc_section : list string :=
  [ "2. LINES OF CODE (LOC)";
    dashes;
    "Total LOC:                174";
    "Logical LOC (LLOC):       132";
    "Source LOC (SLOC):        126";
    "Comments:                 0 (0%)";
    "" ].

(** The head of section 3, the class table. *)
Definition oo_header : list string :=
  [ "3. OBJECT-ORIENTED METRICS";
    dashes;
    "Class      | DIT | CBO | LCOM | Methods | Attributes | Issues";
    dashes ].

(** Section 4, after the empty line that ends the class table.  The
    strings hold the UTF-8 bytes of the text. *)
Definition problem_areas : list string :=
  [ "4. PROBLEM AREAS IDENTIFIED";
    dashes;
    "✗ Student.calculate_performance: CC=17 (should be < 10)";
    "  - Too many conditional branches";
    "  - Mixing GPA calculation and attendance calculation";
    "  - Performance evaluation logic embedded";
    "";
    "✗ High coupling between classes:";
    "  - Course directly modifies Student (bidirectional coupling)";
    "  - Lecturer directly modifies Student grades";
    "  - Registrar depends on all other classes";
    "";
    "✗ Low cohesion in Student class:";
    "  - Mixing data storage, business logic, and presentation";
    "  - calculate_performance does too many things";
    "";
    "✗ Lack of abstraction:";
    "  - Grade calculation logic hard-coded";
    "  - No separation of concerns";
    "  - Direct attribute access violates encapsulation";
    "" ].

(** The padding of the format specifications: [{x:10}] pads a string on
    the right, [{n:3}] pads a number on the left; a text longer than the
    width is left as it is. *)
Definition spaces (n : nat) : string := String.concat "" (replicate n " ").

Definition ljust (width : nat) (text : string) : string :=
  text +:+ spaces (width - String.length text).

Definition rjust (width : nat) (text : string) : string :=
  spaces (width - String.length text) +:+ text.

(** The line [generate_report] appends for a row. *)
Definition format_row (r : row) : string :=
  ljust 10 (row_class r) +:+ " | " +:+
  rjust 3 (pretty (row_dit r)) +:+ " | " +:+
  rjust 3 (pretty (row_cbo r)) +:+ " | " +:+
  rjust 4 (if row_lcom_float r then "0.0" else pretty (row_lcom r)) +:+ " | " +:+
  rjust 7 (pretty (row_methods r)) +:+ " | " +:+
  rjust 10 (pretty (row_attrs r)) +:+ " | " +:+
  row_issues r.

Definition newline : string := String (Ascii.ascii_of_nat 10) EmptyString.

(** [generate_report]: the lines joined by newlines, and the analyzer
    after the call. *)
Definition report_lines (rows : list row) : list string :=
  report_title ++ cc_section ++ loc_section ++ oo_header
  ++ (format_row <$> rows) ++ [""] ++ problem_areas.

Definition generate_report (fuel : nat) (s : analyzer)
  : option (string * analyzer) :=
  '(rows, s) ← report_rows fuel reported_classes s;
  Some (String.concat newline (report_lines rows), s).

(** ** The threshold evaluator of the specification *)

(** Modelled from the spec: the threshold evaluator of section 4.3, which
    takes its three limits from a configuration.  [generate_report] has no
    such parameter. *)
Record config : Type := Config {
  cboHighCoupling : nat;
  lcomLowCohesion : Z;
  maxMethodCount : nat
}.

Definition default_config : config :=
  {| cboHighCoupling := 3; lcomLowCohesion := 5; maxMethodCount := 7 |}.

Inductive flag : Type := HighCoupling | LowCohesion | TooManyMethods.

Definition flag_text (f : flag) : string :=
  match f with
  | HighCoupling => "High coupling"
  | LowCohesion => "Low cohesion"
  | TooManyMethods => "Too many methods"
  end.

Definition exceeds (cfg : config) (cbo : nat) (lcom : Z) (methods : nat)
    (f : flag) : bool :=
  match f with
  | HighCoupling => bool_decide (cboHighCoupling cfg < cbo)%nat
  | LowCohesion => bool_decide (lcomLowCohesion cfg < lcom)%Z
  | TooManyMethods => bool_decide (maxMethodCount cfg < methods)%nat
  end.

Definition evaluate_spec (cfg : config) (cbo : nat) (lcom : Z) (methods : nat)
  : list flag :=
  List.filter (exceeds cfg cbo lcom methods)
    [HighCoupling; LowCohesion; TooManyMethods].

(** ** Parent chains and [calculate_dit] *)

(** The name reached from [c] after [n] parent links, if there are that
    many. *)
Fixpoint ancestor (tree : gmap string string) (n : nat) (c : string)
  : option string :=
  match n with
  | 0 => Some c
  | S n' => tree !! c ≫= ancestor tree n'
  end.

(** The chain from [c] has exactly [n] links: the [n]-th ancestor is the
    first name without a recorded parent. *)
Definition hops (tree : gmap string string) (c : string) (n : nat) : Prop :=
  ∃ x, ancestor tree n c = Some x ∧ tree !! x = None.

(** The chain from [c] comes back to a name it has already been at. *)
Definition revisits (tree : gmap string string) (c : string) : Prop :=
  ∃ i j x, i < j ∧ ancestor tree i c = Some x ∧ ancestor tree j c = Some x.

(** The names the loop has been at while it ran [k] rounds. *)
Definition trail (tree : gmap string string) (k : nat) (c : string)
  : list (option string) :=
  (λ i, ancestor tree i c) <$> seq 0 k.

(** ** Parts of the build phase, named *)

(** What [visit_ClassDef] does before it calls [generic_visit]. *)
Definition enter_class (name : string) (bases body : list node)
    (s : analyzer) : analyzer :=
  visit_items name body (store_inheritance name bases (register_class name bases body s)).

(** Two states record the same under the class name [k]. *)
Definition agree_at (k : string) (s s' : analyzer) : Prop :=
  classes s' !! k = classes s !! k ∧
  inheritance_tree s' !! k = inheritance_tree s !! k ∧
  coupling s' !! k = coupling s !! k ∧
  methods_per_class s' !! k = methods_per_class s !! k ∧
  attributes_per_class s' !! k = attributes_per_class s !! k ∧
  method_attribute_usage s' !! k = method_attribute_usage s !! k.

(** The two updates [analyze_node] makes. *)
Definition record_attribute (c m attr : string) (s : analyzer) : analyzer :=
  set_method_attribute_usage (λ mu, dd_add2 mu c m attr)
    (set_attributes_per_class (λ ma, dd_add ma c attr) s).

Definition record_coupling (c id : string) (s : analyzer) : analyzer :=
  set_coupling (λ m, dd_add m c id) s.

(** [isinstance(node.value, ast.Name) and node.value.id == 'self'] *)
Definition is_self (v : node) : bool :=
  match v with
  | Name id => bool_decide (id = "self")
  | _ => false
  end.

(** The class definitions in a tree, and the names they declare. *)
Definition class_name_of (n : node) : option string :=
  match n with
  | ClassDef name _ _ _ _ => Some name
  | _ => None
  end.

Definition class_names (t : node) : list string := omap class_name_of (subtree t).

Definition class_names_forest (l : list node) : list string := l ≫= class_names.

(** ** The recorded parent of a class *)

Definition name_id (n : node) : option string :=
  match n with
  | Name id => Some id
  | _ => None
  end.

(** The bases of a class definition that are plain names, in order. *)
Definition plain_bases (bases : list node) : list string := omap name_id bases.

Definition own_bases (c : string) (n : node) : list string :=
  match n with
  | ClassDef name bs _ _ _ => if decide (name = c) then plain_bases bs else []
  | _ => []
  end.

(** The plain-name bases of every definition of class [c] in the tree, in
    the order the visitor meets them. *)
Definition declared_bases (c : string) (t : node) : list string :=
  subtree t ≫= own_bases c.

(** A later record replaces an earlier one. *)
Definition or_else {A} (new old : option A) : option A :=
  match new with
  | Some y => Some y
  | None => old
  end.

(** ** Sample analysis units *)

Definition pass_stmt : node := Other "Pass" [].

(** [class A(B): pass] and [class B(A): pass] *)
Definition unit_cycle : node :=
  Other "Module"
    [ ClassDef "A" [Name "B"] [] [pass_stmt] [];
      ClassDef "B" [Name "A"] [] [pass_stmt] [] ].

(** [class Person: pass] and [class Student(Person): pass] *)
Definition unit_person_student : node :=
  Other "Module"
    [ ClassDef "Person" [] [] [pass_stmt] [];
      ClassDef "Student" [Name "Person"] [] [pass_stmt] [] ].

(** [class Student(Person): pass] alone: [Person] comes from elsewhere. *)
Definition unit_external_base : node :=
  Other "Module" [ ClassDef "Student" [Name "Person"] [] [pass_stmt] [] ].

(** [class Root], [class A(Root)], [class B], [class C(A, B)] *)
Definition unit_two_bases : node :=
  Other "Module"
    [ ClassDef "Root" [] [] [pass_stmt] [];
      ClassDef "A" [Name "Root"] [] [pass_stmt] [];
      ClassDef "B" [] [] [pass_stmt] [];
      ClassDef "C" [Name "A"; Name "B"] [] [pass_stmt] [] ].

(** ** Lack of cohesion *)

(** [method_attrs.get(m, set())] *)
Definition attrs_of (method_attrs : gmap string (gset string)) (m : string)
  : gset string :=
  default ∅ (method_attrs !! m).

(** The methods at positions [i] and [j] of the list share an attribute. *)
Definition shares (method_attrs : gmap string (gset string))
    (methods : list string) (ij : nat * nat) : bool :=
  match methods !! ij.1, methods !! ij.2 with
  | Some m1, Some m2 =>
      bool_decide (attrs_of method_attrs m1 ∩ attrs_of method_attrs m2 ≠ ∅)
  | _, _ => false
  end.

(** The unordered pairs of distinct positions below [n], each once, with
    the smaller position first. *)
Definition position_pairs (n : nat) : list (nat * nat) :=
  seq 0 n ≫= λ j, (λ i, (i, j)) <$> seq 0 j.

(** The reference counts: [Q] of pairs that share an attribute, [P] of the
    others, and the metric. *)
Definition lcom_Q_spec (method_attrs : gmap string (gset string))
    (methods : list string) : nat :=
  length (List.filter (shares method_attrs methods)
            (position_pairs (length methods))).

Definition lcom_P_spec (method_attrs : gmap string (gset string))
    (methods : list string) : nat :=
  length (List.filter (λ ij, negb (shares method_attrs methods ij))
            (position_pairs (length methods))).

Definition lcom_spec (method_attrs : gmap string (gset string))
    (methods : list string) : Z :=
  Z.max (Z.of_nat (lcom_P_spec method_attrs methods)
         - Z.of_nat (lcom_Q_spec method_attrs methods)) 0.

(** The pairs of positions in the order the two loops reach them. *)
Definition loop_pairs (n : nat) : list (nat * nat) :=
  seq 0 n ≫= λ i, (λ j, (i, j)) <$> seq (i + 1) (n - (i + 1)).

Definition count_pair (method_attrs : gmap string (gset string))
    (methods : list string) (pq : Z * Z) (ij : nat * nat) : Z * Z :=
  if shares method_attrs methods ij
  then (pq.1, (pq.2 + 1)%Z)
  else ((pq.1 + 1)%Z, pq.2).

(** [class Student] with [register_course] touching [self.courses] and
    [add_grade] touching [self.grades]; [class Person] with one method. *)
Definition unit_two_methods : node :=
  Other "Module"
    [ ClassDef "Person" [] []
        [ FunctionDef "display_info"
            [Other "arguments" []; Attribute (Name "self") "name"] ] [];
      ClassDef "Student" [Name "Person"] []
        [ FunctionDef "register_course"
            [Other "arguments" []; Attribute (Name "self") "courses"];
          FunctionDef "add_grade"
            [Other "arguments" []; Attribute (Name "self") "grades"] ] [] ].

(** ** [ast.walk] reaches the nodes of the subtree *)

Definition forest_height (l : list node) : nat :=
  foldr (λ x h, Nat.max (height x) h) 0 l.

(** ** Coupling *)

(** The set read by [self.coupling[c]]. *)
Definition coupled_with (s : analyzer) (c : string) : gset string :=
  getitem_default ∅ (coupling s) c.

(** The test [analyze_method] puts on an identifier before it adds it to
    the coupling set of class [c]. *)
Definition couples (c id : string) : Prop := id ∈ known_classes ∧ id ≠ c.

Global Instance couples_dec c id : Decision (couples c id).
Proof. unfold couples. apply _. Defined.

Definition is_FunctionDef (n : node) : bool :=
  match n with
  | FunctionDef _ _ => true
  | _ => false
  end.

(** The methods of class [c]: the function definitions directly in the
    body of a definition of [c], for every such definition in the tree. *)
Definition own_methods (c : string) (n : node) : list node :=
  match n with
  | ClassDef name _ _ bd _ =>
      if decide (name = c) then List.filter is_FunctionDef bd else []
  | _ => []
  end.

Definition methods_of (c : string) (t : node) : list node :=
  subtree t ≫= own_methods c.

(** The identifiers a node's subtree mentions, one entry per mention. *)
Definition names_in (n : node) : list string := omap name_id (subtree n).

(** Every mention of an identifier in the methods of class [c]. *)
Definition referenced (c : string) (t : node) : list string :=
  methods_of c t ≫= names_in.

(** Modelled from the spec: the coupling targets of section 3, the names
    mentioned in the methods of [c] that are classes of the analysis unit,
    [c] itself excluded. *)
Definition coupling_targets_spec (c : string) (tree : node) : list string :=
  remove_dups
    (filter (λ id, is_Some (classes (analyze tree) !! id) ∧ id ≠ c)
       (referenced c tree)).

(** What [analyze_method] collects instead: the names among the five of
    [known_classes], [c] itself excluded. *)
Definition coupling_targets (c : string) (tree : node) : list string :=
  remove_dups (filter (couples c) (referenced c tree)).

(** [class Report] with a method that mentions [Course] twice, in a unit
    that defines no [Course]. *)
Definition unit_undefined_name : node :=
  Other "Module"
    [ ClassDef "Report" [] []
        [ FunctionDef "build"
            [Other "arguments" [];
             Other "Call" [Name "Course"; Other "Call" [Name "Course"]]] ] [] ].

(** [class PerformanceCalculator] and a [class Student] whose method
    mentions it. *)
Definition unit_unlisted_class : node :=
  Other "Module"
    [ ClassDef "PerformanceCalculator" [] [] [pass_stmt] [];
      ClassDef "Student" [] []
        [ FunctionDef "gpa"
            [Other "arguments" [];
             Other "Call" [Attribute (Name "PerformanceCalculator") "calculate_gpa"]] ]
        [] ].

(** A class whose methods mention [Course] twice, [Lecturer], [Registrar],
    its own name and an unknown name. *)
Definition unit_repeated_mentions : node :=
  Other "Module"
    [ ClassDef "Student" [] []
        [ FunctionDef "register_course"
            [Other "arguments" []; Name "Course"; Name "Lecturer"; Name "Student"];
          FunctionDef "report"
            [Other "arguments" []; Name "Course"; Name "Registrar"; Name "Helper"] ]
        [] ].

(** The same names, each mentioned once. *)
Definition unit_single_mentions : node :=
  Other "Module"
    [ ClassDef "Student" [] []
        [ FunctionDef "report"
            [Other "arguments" []; Name "Helper"; Name "Registrar"; Name "Student";
             Name "Lecturer"; Name "Course"] ]
        [] ].

(** ** What the registry holds for the methods of a class *)

Definition function_name (n : node) : option string :=
  match n with
  | FunctionDef name _ => Some name
  | _ => None
  end.

(** The attribute read or written through [self] at a node, and the
    attributes a method touches that way, one entry per access. *)
Definition self_attr (n : node) : option string :=
  match n with
  | Attribute v attr => if is_self v then Some attr else None
  | _ => None
  end.

Definition self_attrs (method : node) : list string :=
  omap self_attr (subtree method).

(** The list read by [self.methods_per_class[c]] and the set read by
    [self.method_attribute_usage[c].get(m, set())]. *)
Definition methods_list (s : analyzer) (c : string) : list string :=
  getitem_default [] (methods_per_class s) c.

Definition usage_of (s : analyzer) (c m : string) : gset string :=
  attrs_of (getitem_default ∅ (method_attribute_usage s) c) m.

(** A method named [m] of which [x] is an attribute touched through
    [self]. *)
Definition touches (m x : string) (method : node) : Prop :=
  function_name method = Some m ∧ x ∈ self_attrs method.

(** ** Metric calls and the state *)

(** [m'] is [m] with the default stored under some keys that had no
    entry. *)
Definition defaults_added {V} (d : V) (m m' : gmap string V) : Prop :=
  ∀ k, m' !! k = m !! k ∨ (m !! k = None ∧ m' !! k = Some d).

(** [s'] is [s] up to such entries in the four [defaultdict]s. *)
Definition same_but_defaults (s s' : analyzer) : Prop :=
  classes s' = classes s ∧
  current_class s' = current_class s ∧
  inheritance_tree s' = inheritance_tree s ∧
  defaults_added ∅ (coupling s) (coupling s') ∧
  defaults_added [] (methods_per_class s) (methods_per_class s') ∧
  defaults_added ∅ (attributes_per_class s) (attributes_per_class s') ∧
  defaults_added ∅ (method_attribute_usage s) (method_attribute_usage s').

(** A call of one of the three metric methods, the state it leaves and
    the number it returns. *)
Inductive metric_call : Type :=
| Dit (fuel : nat) (class_name : string)
| Cbo (class_name : string)
| Lcom (class_name : string).

Definition run_call (s : analyzer) (call : metric_call) : analyzer :=
  match call with
  | Dit _ _ => s
  | Cbo c => (calculate_cbo c s).2
  | Lcom c => (calculate_lcom c s).2
  end.

Definition call_value (call : metric_call) (s : analyzer) : option Z :=
  match call with
  | Dit fuel c => Z.of_nat <$> calculate_dit fuel c s
  | Cbo c => Some (Z.of_nat (calculate_cbo c s).1)
  | Lcom c => Some (calculate_lcom c s).1
  end.

Definition run_calls (calls : list metric_call) (s : analyzer) : analyzer :=
  foldl run_call s calls.

(** ** The complexity table *)

(** Reading the table back: the cells of a line, and the number in the
    [CC] column of the line whose first cell is a given method. *)
Fixpoint split_on (sep : Ascii.ascii) (s : string) : list string :=
  match s with
  | EmptyString => [EmptyString]
  | String a r =>
      if Ascii.eqb a sep then EmptyString :: split_on sep r
      else match split_on sep r with
           | [] => [String a EmptyString]
           | cell :: cells => String a cell :: cells
           end
  end.

Fixpoint lstrip (s : string) : string :=
  match s with
  | String a r => if Ascii.eqb a " "%char then lstrip r else s
  | EmptyString => EmptyString
  end.

Definition string_rev (s : string) : string :=
  string_of_list_ascii (rev (list_ascii_of_string s)).

Definition strip (s : string) : string := string_rev (lstrip (string_rev (lstrip s))).

Definition digit_of (a : Ascii.ascii) : option nat :=
  let n := Ascii.nat_of_ascii a in
  if bool_decide (48 ≤ n ≤ 57) then Some (n - 48) else None.

Fixpoint parse_digits (acc : nat) (s : string) : option nat :=
  match s with
  | EmptyString => Some acc
  | String a r => d ← digit_of a; parse_digits (10 * acc + d) r
  end.

Definition parse_nat (s : string) : option nat :=
  match s with
  | EmptyString => None
  | _ => parse_digits 0 s
  end.

Definition parse_row (line : string) : option (string * option nat) :=
  match split_on "|"%char line with
  | method :: cc :: _ => Some (strip method, parse_nat (strip cc))
  | _ => None
  end.

Definition cc_table (report : list string) : list (string * option nat) :=
  omap parse_row report.

Fixpoint assoc (rows : list (string * option nat)) (method : string)
  : option nat :=
  match rows with
  | [] => None
  | (m, cc) :: rest => if decide (m = method) then cc else assoc rest method
  end.

Definition reported_cc (report : list string) (method : string) : option nat :=
  assoc (cc_table report) method.

(** Modelled from the spec: the decision points of section 4.2, counted
    on the syntax tree of a method: one for each [if]/[elif], loop and
    exception handler, and one for each operator of an [and]/[or] chain (a
    [BoolOp] node has its operator and its operands as children). *)
Definition decision_weight (n : node) : nat :=
  match n with
  | Other kind fs =>
      if bool_decide (kind ∈ ["If"; "For"; "AsyncFor"; "While"; "ExceptHandler"])
      then 1
      else if bool_decide (kind = "BoolOp") then length fs - 2
      else 0
  | _ => 0
  end.

Definition decision_points (method : node) : nat :=
  sum_list (decision_weight <$> subtree method).

Definition cyclomatic_complexity_spec (method : node) : nat :=
  1 + decision_points method.

(** [class Student] whose [calculate_performance] is a single [pass]. *)
Definition trivial_calculate_performance : node :=
  FunctionDef "calculate_performance" [Other "arguments" []; pass_stmt].

Definition unit_trivial_performance : node :=
  Other "Module" [ ClassDef "Student" [] [] [trivial_calculate_performance] [] ].

(** ** Cohesion counted along the method list *)

Definition share_attrs (method_attrs : gmap string (gset string))
    (m1 m2 : string) : bool :=
  bool_decide (attrs_of method_attrs m1 ∩ attrs_of method_attrs m2 ≠ ∅).

(** The pairs formed by each method with the methods after it, those that
    share an attribute ([true]) or those that do not ([false]). *)
Fixpoint pairs_after (method_attrs : gmap string (gset string))
    (sharing : bool) (methods : list string) : nat :=
  match methods with
  | [] => 0
  | m :: rest =>
      length (List.filter
                (λ m', bool_decide (share_attrs method_attrs m m' = sharing)) rest)
      + pairs_after method_attrs sharing rest
  end.

(** ** The class table, row by row *)

(** The row of a class computed on one state, without threading the state
    through the calls. *)
Definition row_of (fuel : nat) (s : analyzer) (c : string) : option row :=
  dit ← calculate_dit fuel c s;
  Some (Row c dit (calculate_cbo c s).1 (calculate_lcom c s).1
          (bool_decide (length (getitem_default [] (methods_per_class s) c) ≤ 1))
          (length (getitem_default [] (methods_per_class s) c))
          (size (getitem_default ∅ (attributes_per_class s) c))
          (issue_str (issues (calculate_cbo c s).1 (calculate_lcom c s).1
                        (length (getitem_default [] (methods_per_class s) c))))).

(** [class_name in self.classes] *)
Definition registered (s : analyzer) (c : string) : bool :=
  bool_decide (is_Some (classes s !! c)).

(** [class Student] of [unit_two_methods] with its methods the other way
    round. *)
Definition unit_two_methods_swapped : node :=
  Other "Module"
    [ ClassDef "Student" [Name "Person"] []
        [ FunctionDef "add_grade"
            [Other "arguments" []; Attribute (Name "self") "grades"];
          FunctionDef "register_course"
            [Other "arguments" []; Attribute (Name "self") "courses"] ] [] ].

(** The set read by [self.attributes_per_class[c]]. *)
Definition attributes_of (s : analyzer) (c : string) : gset string :=
  getitem_default ∅ (attributes_per_class s) c.

(** The attributes of a class are those of its methods. *)
Definition attributes_covered (s : analyzer) : Prop :=
  ∀ c x, x ∈ attributes_of s c ↔ ∃ m, x ∈ usage_of s c m.

(** [class Shape] defined twice, the second time without base and with
    another method. *)
Definition unit_redefined : node :=
  Other "Module"
    [ ClassDef "Shape" [Name "Base"] []
        [ FunctionDef "area" [Other "arguments" []; Attribute (Name "self") "w"] ] [];
      ClassDef "Shape" [] []
        [ FunctionDef "name" [Other "arguments" []; Attribute (Name "self") "label"] ]
        [] ].

(** ** Reading the report text *)

Definition newline_char : Ascii.ascii := Ascii.ascii_of_nat 10.

Fixpoint has_char (a : Ascii.ascii) (s : string) : bool :=
  match s with
  | EmptyString => false
  | String b r => Ascii.eqb b a || has_char a r
  end.

(** The lines of a section: those after the line [title], up to the next
    empty line. *)
Fixpoint until_empty (lines : list string) : list string :=
  match lines with
  | [] => []
  | l :: rest => if String.eqb l "" then [] else l :: until_empty rest
  end.

Fixpoint section_of (title : string) (lines : list string) : list string :=
  match lines with
  | [] => []
  | l :: rest =>
      if String.eqb l title then until_empty rest else section_of title rest
  end.

Definition report_section (title text : string) : list string :=
  section_of title (split_on newline_char text).

Definition cc_title : string := "1. CYCLOMATIC COMPLEXITY (CC)".




(** ** Cohesion in terms of the declared methods *)

Definition method_name (n : node) : string :=
  match n with
  | FunctionDef name _ => name
  | _ => ""
  end.

(** The attributes a method touches through [self]. *)
Definition own_attrs (method : node) : gset string :=
  list_to_set (self_attrs method).

(** The attributes touched through [self] by any of the methods [ms]
    that has the name of [method]. *)
Definition pooled_attrs (ms : list node) (method : node) : gset string :=
  ⋃ (own_attrs <$> List.filter
                     (λ m', bool_decide (method_name m' = method_name method)) ms).

(** The methods at positions [i] and [j] have an attribute in common,
    when [sets] gives the attribute set of a method. *)
Definition shares_by (sets : node → gset string) (ms : list node)
    (ij : nat * nat) : bool :=
  match ms !! ij.1, ms !! ij.2 with
  | Some m1, Some m2 => bool_decide (sets m1 ∩ sets m2 ≠ ∅)
  | _, _ => false
  end.

(** [max(P − Q, 0)] over the unordered pairs of distinct positions of
    [ms]. *)
Definition lcom_by (sets : node → gset string) (ms : list node) : Z :=
  Z.max (Z.of_nat (length (List.filter (λ ij, negb (shares_by sets ms ij))
                             (position_pairs (length ms))))
         - Z.of_nat (length (List.filter (shares_by sets ms)
                               (position_pairs (length ms))))) 0.

(** [class A] with two methods [f], one touching [self.a], the other
    [self.b]. *)
Definition unit_same_name_methods : node :=
  Other "Module"
    [ ClassDef "A" [] []
        [ FunctionDef "f" [Other "arguments" []; Attribute (Name "self") "a"];
          FunctionDef "f" [Other "arguments" []; Attribute (Name "self") "b"] ] [] ].

(** * Properties *)

(** Case analysis on every comparison the goal or a hypothesis tests. *)
Ltac split_tests :=
  repeat match goal with
         | |- context [bool_decide ?P] => destruct (bool_decide_reflect P)
         | H : context [bool_decide ?P] |- _ => destruct (bool_decide_reflect P)
         end.

(** ** Threshold flags *)

(** Closes [text = t1 ∨ text = t2 ∨ ... ↔ limit < metric] once the
    comparison is decided: either a disjunct is trivial or all are absurd. *)
Ltac flag_iff :=
  split;
  [ intros ?; first [ lia | exfalso; intuition discriminate ]
  | intros ?; first [ tauto | lia ] ].

Lemma issues_evaluate_default cbo lcom methods :
  issues cbo lcom methods
  = flag_text <$> evaluate_spec default_config cbo lcom methods.
Proof.
  unfold issues, evaluate_spec, exceeds; simpl.
  split_tests; reflexivity.
Qed.

(** C8, as stated, fails: with a configured coupling limit of 10 a class
    of CBO 4 must not be flagged, and [generate_report] flags it. *)
Lemma issues_ignore_config :
  let cfg := {| cboHighCoupling := 10; lcomLowCohesion := 5; maxMethodCount := 7 |} in
  evaluate_spec cfg 4 0 0 = [] ∧
  issues 4 0 0 = ["High coupling"] ∧
  ¬ (∀ cfg cbo lcom methods,
       issues cbo lcom methods = flag_text <$> evaluate_spec cfg cbo lcom methods).
Proof.
  split_and!; [reflexivity | reflexivity |].
  intros H.
  specialize (H {| cboHighCoupling := 10; lcomLowCohesion := 5; maxMethodCount := 7 |}
                4%nat 0%Z 0%nat).
  discriminate H.
Qed.

(** C8, amended.  The limits are the literals 3, 5 and 7 of
    [generate_report]; there is no configuration to override them.  The
    flags it emits are those of the configured evaluator on every metric
    vector exactly for the default configuration. *)
Theorem issues_fixed_thresholds (cfg : config) :
  (∀ cbo lcom methods,
     issues cbo lcom methods = flag_text <$> evaluate_spec cfg cbo lcom methods)
  ↔ cfg = default_config.
Proof.
  split.
  - intros H. destruct cfg as [a b c]. unfold default_config.
    assert (Ha : a = 3%nat).
    { pose proof (H 4%nat 0%Z 0%nat) as H1. pose proof (H (S a) 0%Z 0%nat) as H2.
      pose proof (H a 0%Z 0%nat) as H3. pose proof (H 3%nat 0%Z 0%nat) as H4.
      unfold issues, evaluate_spec, exceeds in H1, H2, H3, H4; simpl in *.
      split_tests; simplify_eq; lia. }
    assert (Hb : b = 5%Z).
    { pose proof (H 0%nat 6%Z 0%nat) as H1. pose proof (H 0%nat (b + 1)%Z 0%nat) as H2.
      pose proof (H 0%nat b 0%nat) as H3. pose proof (H 0%nat 5%Z 0%nat) as H4.
      unfold issues, evaluate_spec, exceeds in H1, H2, H3, H4; simpl in *.
      split_tests; simplify_eq; lia. }
    assert (Hc : c = 7%nat).
    { pose proof (H 0%nat 0%Z 8%nat) as H1. pose proof (H 0%nat 0%Z (S c)) as H2.
      pose proof (H 0%nat 0%Z c) as H3. pose proof (H 0%nat 0%Z 7%nat) as H4.
      unfold issues, evaluate_spec, exceeds in H1, H2, H3, H4; simpl in *.
      split_tests; simplify_eq; lia. }
    congruence.
  - intros ->. apply issues_evaluate_default.
Qed.

(** ** Parent chains and [calculate_dit] *)

Section chains.
Variable tree : gmap string string.

Lemma ancestor_add i k c :
  ancestor tree (i + k) c = ancestor tree i c ≫= ancestor tree k.
Proof.
  revert c. induction i as [|i IH]; intros c; simpl; [done|].
  destruct (tree !! c) as [p|]; simpl; [apply IH | done].
Qed.

Lemma hops_0 c : tree !! c = None → hops tree c 0.
Proof. intros H. exists c. done. Qed.

Lemma hops_S c p n : tree !! c = Some p → hops tree p n → hops tree c (S n).
Proof. intros Hc (x & Hx & Hend). exists x. simpl. rewrite Hc. done. Qed.

Lemma hops_inv c n :
  hops tree c n →
  match tree !! c with
  | None => n = 0
  | Some p => ∃ n', n = S n' ∧ hops tree p n'
  end.
Proof.
  intros (x & Hx & Hend). destruct n as [|n]; simpl in Hx.
  - injection Hx as ->. rewrite Hend. done.
  - destruct (tree !! c) as [p|]; [|done]. exists n. split; [done|].
    exists x. done.
Qed.

Lemma hops_unique c n m : hops tree c n → hops tree c m → n = m.
Proof.
  revert c m. induction n as [|n IH]; intros c m Hn Hm;
    apply hops_inv in Hn; apply hops_inv in Hm;
    destruct (tree !! c) as [p|].
  - destruct Hn as (? & ? & _). lia.
  - congruence.
  - destruct Hn as (n' & [= <-] & Hn), Hm as (m' & -> & Hm).
    f_equal. eapply IH; eassumption.
  - discriminate.
Qed.

Lemma hops_ancestor c n i x :
  hops tree c n → ancestor tree i c = Some x → i ≤ n ∧ hops tree x (n - i).
Proof.
  revert c n. induction i as [|i IH]; intros c n Hn Hi; simpl in Hi.
  - injection Hi as ->. rewrite Nat.sub_0_r. split; [lia | done].
  - apply hops_inv in Hn. destruct (tree !! c) as [p|]; [|done].
    destruct Hn as (n' & -> & Hn). simpl in Hi.
    destruct (IH p n' Hn Hi). split; [lia | done].
Qed.

(** A chain that ends does not revisit a name. *)
Lemma hops_not_revisits c n : hops tree c n → ¬ revisits tree c.
Proof.
  intros Hn (i & j & x & Hij & Hi & Hj).
  destruct (hops_ancestor _ _ _ _ Hn Hi) as [? H1].
  destruct (hops_ancestor _ _ _ _ Hn Hj) as [? H2].
  pose proof (hops_unique _ _ _ H1 H2). lia.
Qed.

(** What the loop returns, in terms of the chain. *)
Lemma dit_loop_Some fuel depth c r :
  dit_loop fuel tree depth c = Some r ↔
  ∃ n, n < fuel ∧ hops tree c n ∧ r = depth + n.
Proof.
  revert depth c. induction fuel as [|fuel IH]; intros depth c; simpl.
  - split; [done | intros (n & ? & _); lia].
  - destruct (tree !! c) as [p|] eqn:Hc.
    + rewrite IH. split.
      * intros (n & ? & Hn & ->). exists (S n).
        split_and!; [lia | by eapply hops_S | lia].
      * intros (n & ? & Hn & ->). apply hops_inv in Hn. rewrite Hc in Hn.
        destruct Hn as (n' & -> & Hn). exists n'. split_and!; [lia | done | lia].
    + split.
      * intros [= <-]. exists 0. split_and!; [lia | by apply hops_0 | lia].
      * intros (n & ? & Hn & ->). apply hops_inv in Hn. rewrite Hc in Hn.
        subst n. f_equal. lia.
Qed.

(** While the loop is running every name it has been at has a parent. *)
Lemma dit_loop_None fuel depth c :
  dit_loop fuel tree depth c = None ↔
  ∀ i, i < fuel → ∃ x p, ancestor tree i c = Some x ∧ tree !! x = Some p.
Proof.
  revert depth c. induction fuel as [|fuel IH]; intros depth c; simpl.
  - split; [intros _ i ?; lia | done].
  - destruct (tree !! c) as [p|] eqn:Hc.
    + rewrite IH. split.
      * intros H [|i] ?; simpl.
        -- exists c, p. done.
        -- rewrite Hc. simpl. apply H. lia.
      * intros H i ?. specialize (H (S i)). simpl in H. rewrite Hc in H.
        apply H. lia.
    + split; [done|]. intros H. destruct (H 0) as (x & p & [= <-] & Hp); [lia|].
      congruence.
Qed.

(** More fuel does not change a result. *)
Lemma dit_loop_mono fuel fuel' depth c r :
  fuel ≤ fuel' → dit_loop fuel tree depth c = Some r →
  dit_loop fuel' tree depth c = Some r.
Proof.
  intros Hle. rewrite !dit_loop_Some. intros (n & ? & ? & ?).
  exists n. split_and!; [lia | done | done].
Qed.

Lemma trail_revisits k c :
  (∀ i, i < k → is_Some (ancestor tree i c)) →
  ¬ NoDup (trail tree k c) → revisits tree c.
Proof.
  intros Hdef Hdup.
  assert (∃ i j, i < j < k ∧ ancestor tree i c = ancestor tree j c)
    as (i & j & Hij & Heq).
  { unfold trail in Hdup. clear Hdef. induction k as [|k IH].
    - destruct Hdup. constructor.
    - rewrite seq_S, fmap_app in Hdup. simpl in Hdup.
      destruct (decide (NoDup ((λ i, ancestor tree i c) <$> seq 0 k))) as [Hnd|Hnd].
      + destruct (decide (ancestor tree k c ∈ (λ i, ancestor tree i c) <$> seq 0 k))
          as [Hin|Hnin].
        * apply list_elem_of_fmap in Hin as (i & Heq & Hi).
          apply elem_of_seq in Hi. exists i, k. split; [lia | done].
        * destruct Hdup. apply NoDup_app. split_and!; [done | | apply NoDup_singleton].
          intros x Hx Hx'. apply list_elem_of_singleton in Hx'. subst x. done.
      + destruct (IH Hnd) as (i & j & ? & ?). exists i, j. split; [lia | done]. }
  destruct (Hdef i) as [x Hx]; [lia|].
  exists i, j, x. split_and!; [lia | done | congruence].
Qed.

(** Pigeonhole: a loop that is still running after more tests than there
    are recorded parents has been at some name twice. *)
Lemma dit_loop_None_revisits depth c :
  dit_loop (S (size tree)) tree depth c = None → revisits tree c.
Proof.
  intros H. rewrite dit_loop_None in H.
  apply (trail_revisits (S (size tree))).
  { intros i Hi. destruct (H i Hi) as (x & _ & -> & _). by eexists. }
  intros Hnd.
  assert (Hsub : trail tree (S (size tree)) c ⊆ Some <$> elements (dom tree)).
  { intros o Ho. apply list_elem_of_fmap in Ho as (i & -> & Hi).
    apply elem_of_seq in Hi. destruct (H i) as (x & p & -> & Hp); [lia|].
    apply list_elem_of_fmap. exists x. split; [done|].
    apply elem_of_elements, elem_of_dom. by eexists. }
  pose proof (submseteq_length _ _ (NoDup_submseteq _ _ Hnd Hsub)) as Hlen.
  unfold trail in Hlen. rewrite !length_fmap, length_seq in Hlen.
  change (length (elements (dom tree))) with (size (dom tree)) in Hlen.
  rewrite size_dom in Hlen. lia.
Qed.

(** Every chain either ends or revisits a name. *)
Lemma hops_or_revisits c : (∃ n, hops tree c n) ∨ revisits tree c.
Proof.
  destruct (dit_loop (S (size tree)) tree 0 c) as [r|] eqn:H.
  - left. apply dit_loop_Some in H as (n & _ & Hn & _). by exists n.
  - right. by eapply dit_loop_None_revisits.
Qed.

Lemma revisits_dit_loop c fuel depth :
  revisits tree c → dit_loop fuel tree depth c = None.
Proof.
  intros Hrev. destruct (dit_loop fuel tree depth c) as [r|] eqn:H; [|done].
  apply dit_loop_Some in H as (n & _ & Hn & _).
  destruct (hops_not_revisits _ _ Hn Hrev).
Qed.
End chains.

(** ** The visitor, equation by equation *)

Lemma visit_all_cons x r s : visit_all (x :: r) s = visit_all r (visit x s).
Proof. reflexivity. Qed.

Lemma visit_all_app l1 l2 s : visit_all (l1 ++ l2) s = visit_all l2 (visit_all l1 s).
Proof. unfold visit_all. apply foldl_app. Qed.

Lemma visit_all_unfold l s :
  (fix visit_all (l : list node) (s : analyzer) : analyzer :=
     match l with
     | [] => s
     | x :: r => visit_all r (visit x s)
     end) l s = visit_all l s.
Proof. revert s. induction l as [|x r IH]; intros s; [done|]. apply IH. Qed.

Lemma visit_Name id s : visit (Name id) s = s.
Proof. reflexivity. Qed.

Lemma visit_Attribute v attr s : visit (Attribute v attr) s = visit v s.
Proof. reflexivity. Qed.

Lemma visit_FunctionDef name fs s : visit (FunctionDef name fs) s = visit_all fs s.
Proof. simpl. apply visit_all_unfold. Qed.

Lemma visit_Other kind fs s : visit (Other kind fs) s = visit_all fs s.
Proof. simpl. apply visit_all_unfold. Qed.

Lemma visit_ClassDef name bs ks bd ds s :
  visit (ClassDef name bs ks bd ds) s
  = set_current_class None
      (visit_all (bs ++ ks ++ bd ++ ds) (enter_class name bs bd s)).
Proof.
  simpl. rewrite !visit_all_unfold, !visit_all_app. reflexivity.
Qed.

Lemma visit_generic n s :
  (∀ name bs ks bd ds, n ≠ ClassDef name bs ks bd ds) →
  visit n s = visit_all (iter_child_nodes n) s.
Proof.
  destruct n; intros Hn; simpl; rewrite ?visit_all_unfold; try done.
  destruct (Hn _ _ _ _ _ eq_refl).
Qed.

(** ** What a state records under one class name *)

Lemma agree_at_refl k s : agree_at k s s.
Proof. by repeat split. Qed.

Lemma agree_at_trans k s1 s2 s3 :
  agree_at k s1 s2 → agree_at k s2 s3 → agree_at k s1 s3.
Proof.
  intros (?&?&?&?&?&?) (?&?&?&?&?&?). repeat split; congruence.
Qed.

Lemma agree_at_current_class k c s : agree_at k s (set_current_class c s).
Proof. by repeat split. Qed.

Lemma match_self {A} (id : string) (a b : A) :
  match id with "self" => a | _ => b end = if decide (id = "self") then a else b.
Proof.
  destruct (decide (id = "self")) as [->|Hid]; [done|].
  repeat (match goal with
          | |- context [match ?x with _ => _ end] => destruct x
          end; try reflexivity).
  done.
Qed.

Lemma analyze_node_Name c m s id :
  analyze_node c m s (Name id)
  = if decide (id ∈ known_classes ∧ id ≠ c) then record_coupling c id s else s.
Proof.
  unfold analyze_node. split_tests; destruct (decide _); try done; tauto.
Qed.

Lemma analyze_node_Attribute c m s v attr :
  analyze_node c m s (Attribute v attr)
  = if is_self v then record_attribute c m attr s else s.
Proof.
  unfold analyze_node. destruct v as [id| | | |]; try done.
  rewrite match_self. simpl. by destruct (decide (id = "self")); split_tests.
Qed.

Lemma analyze_node_other c m s n :
  (∀ id, n ≠ Name id) → (∀ v attr, n ≠ Attribute v attr) →
  analyze_node c m s n = s.
Proof.
  intros H1 H2. destruct n; try done.
  - destruct (H1 _ eq_refl).
  - destruct (H2 _ _ eq_refl).
Qed.

Lemma record_coupling_agree k c id s : k ≠ c → agree_at k s (record_coupling c id s).
Proof.
  intros Hk. repeat split; simpl. unfold dd_add. by rewrite lookup_insert_ne.
Qed.

Lemma record_attribute_agree k c m attr s :
  k ≠ c → agree_at k s (record_attribute c m attr s).
Proof.
  intros Hk. repeat split; simpl; unfold dd_add, dd_add2; by rewrite lookup_insert_ne.
Qed.

Lemma analyze_node_agree k c m s n : k ≠ c → agree_at k s (analyze_node c m s n).
Proof.
  intros Hk. destruct n as [id|v attr| | |]; try apply agree_at_refl.
  - rewrite analyze_node_Name. case_decide; [by apply record_coupling_agree|].
    apply agree_at_refl.
  - rewrite analyze_node_Attribute.
    destruct (is_self v); [by apply record_attribute_agree|].
    apply agree_at_refl.
Qed.

Lemma analyze_method_agree k c m node s :
  k ≠ c → agree_at k s (analyze_method c m node s).
Proof.
  intros Hk. unfold analyze_method. generalize (walk node). intros l.
  revert s. induction l as [|x l IH]; intros s; simpl; [apply agree_at_refl|].
  eapply agree_at_trans; [|apply IH]. by apply analyze_node_agree.
Qed.

Lemma visit_item_agree k c s item : k ≠ c → agree_at k s (visit_item c s item).
Proof.
  intros Hk. destruct item; try apply agree_at_refl. simpl.
  eapply agree_at_trans; [|by apply analyze_method_agree].
  repeat split; simpl.
  - by rewrite lookup_alter_ne.
  - unfold dd_append. by rewrite lookup_insert_ne.
Qed.

Lemma visit_items_agree k c body s : k ≠ c → agree_at k s (visit_items c body s).
Proof.
  intros Hk. unfold visit_items. revert s.
  induction body as [|x l IH]; intros s; simpl; [apply agree_at_refl|].
  eapply agree_at_trans; [|apply IH]. by apply visit_item_agree.
Qed.

Lemma store_inheritance_agree k c bases s :
  k ≠ c → agree_at k s (store_inheritance c bases s).
Proof.
  intros Hk. unfold store_inheritance. revert s.
  induction bases as [|x l IH]; intros s; simpl; [apply agree_at_refl|].
  eapply agree_at_trans; [|apply IH].
  destruct x; try apply agree_at_refl.
  repeat split; simpl. by rewrite lookup_insert_ne.
Qed.

Lemma register_class_agree k c bases body s :
  k ≠ c → agree_at k s (register_class c bases body s).
Proof. intros Hk. repeat split; simpl. by rewrite lookup_insert_ne. Qed.

Lemma enter_class_agree k c bases body s :
  k ≠ c → agree_at k s (enter_class c bases body s).
Proof.
  intros Hk. unfold enter_class.
  eapply agree_at_trans; [by apply register_class_agree|].
  eapply agree_at_trans; [by apply store_inheritance_agree|].
  by apply visit_items_agree.
Qed.

Lemma subtree_forest l :
  (fix forest (l : list node) : list node :=
     match l with
     | [] => []
     | x :: r => subtree x ++ forest r
     end) l = l ≫= subtree.
Proof. induction l as [|x r IH]; [done|]. simpl. by rewrite IH. Qed.

Lemma subtree_unfold n : subtree n = n :: (iter_child_nodes n ≫= subtree).
Proof.
  destruct n; simpl; rewrite ?subtree_forest, ?bind_app, ?app_nil_r; done.
Qed.

Lemma class_names_unfold n :
  class_names n
  = option_list (class_name_of n) ++ class_names_forest (iter_child_nodes n).
Proof.
  unfold class_names at 1. rewrite subtree_unfold. simpl.
  assert (∀ l, omap class_name_of (l ≫= subtree) = class_names_forest l) as ->.
  { induction l as [|x r IH]; [done|].
    change ((x :: r) ≫= subtree) with (subtree x ++ (r ≫= subtree)).
    rewrite omap_app, IH. done. }
  destruct (class_name_of n); done.
Qed.

(** Induction over a tree through [iter_child_nodes]. *)
Lemma node_children_ind (P : node → Prop) :
  (∀ n, Forall P (iter_child_nodes n) → P n) → ∀ n, P n.
Proof.
  intros H. induction n using node_ind'; apply H; simpl;
    rewrite ?Forall_app; auto.
Qed.

(** A property every class entry and every reset of [current_class]
    keeps is kept by a whole visit. *)
Lemma visit_preserves (I : analyzer → Prop) :
  (∀ name bs bd s, I s → I (enter_class name bs bd s)) →
  (∀ s, I s → I (set_current_class None s)) →
  ∀ t s, I s → I (visit t s).
Proof.
  intros Henter Hleave.
  assert (Hall : ∀ l, Forall (λ t, ∀ s, I s → I (visit t s)) l →
                      ∀ s, I s → I (visit_all l s)).
  { induction 1 as [|x r Hx _ IH]; intros s Hs; [done|].
    rewrite visit_all_cons. apply IH, Hx, Hs. }
  induction t as [n IH] using node_children_ind. intros s Hs.
  destruct n as [id|v attr|name fs|name bs ks bd ds|kind fs];
    try (rewrite visit_generic by done; by apply Hall).
  rewrite visit_ClassDef. apply Hleave, Hall; [done|]. by apply Henter.
Qed.

(** A visit leaves alone what is recorded under a name no class
    definition of the tree bears. *)
Lemma visit_all_agree k l :
  Forall (λ t, ∀ s, k ∉ class_names t → agree_at k s (visit t s)) l →
  ∀ s, k ∉ class_names_forest l → agree_at k s (visit_all l s).
Proof.
  induction 1 as [|x r Hx _ IH]; intros s Hk; [apply agree_at_refl|].
  rewrite visit_all_cons. unfold class_names_forest in Hk. simpl in Hk.
  rewrite elem_of_app in Hk.
  eapply agree_at_trans; [apply Hx | apply IH]; tauto.
Qed.

Lemma visit_agree k t s : k ∉ class_names t → agree_at k s (visit t s).
Proof.
  revert s. induction t as [n IH] using node_children_ind. intros s Hk.
  rewrite class_names_unfold, elem_of_app in Hk.
  destruct n as [id|v attr|name fs|name bs ks bd ds|kind fs];
    try (rewrite visit_generic by done; apply visit_all_agree; tauto).
  rewrite visit_ClassDef.
  eapply agree_at_trans; [|apply agree_at_current_class].
  eapply agree_at_trans; [|apply visit_all_agree; tauto].
  apply enter_class_agree. intros ->. apply Hk. left. simpl. left.
Qed.

(** Registered names stay registered, and every class definition of the
    tree is registered. *)
Lemma analyze_method_classes c m node s :
  classes (analyze_method c m node s) = classes s.
Proof.
  unfold analyze_method. generalize (walk node). intros l. revert s.
  induction l as [|x l IH]; intros s; simpl; [done|]. rewrite IH.
  destruct x as [id|v attr| | |]; try done.
  - rewrite analyze_node_Name. by case_decide.
  - rewrite analyze_node_Attribute. by destruct (is_self v).
Qed.

Lemma visit_items_classes_is_Some k c body s :
  is_Some (classes s !! k) → is_Some (classes (visit_items c body s) !! k).
Proof.
  unfold visit_items. revert s.
  induction body as [|x l IH]; intros s Hs; simpl; [done|]. apply IH.
  destruct x; try done. simpl. rewrite analyze_method_classes. simpl.
  rewrite lookup_alter. case_decide; [subst; by apply fmap_is_Some | done].
Qed.

Lemma store_inheritance_classes c bases s :
  classes (store_inheritance c bases s) = classes s.
Proof.
  unfold store_inheritance. revert s.
  induction bases as [|x l IH]; intros s; simpl; [done|]. rewrite IH.
  by destruct x.
Qed.

Lemma enter_class_registers c bases body s :
  is_Some (classes (enter_class c bases body s) !! c).
Proof.
  unfold enter_class. apply visit_items_classes_is_Some.
  rewrite store_inheritance_classes. simpl. rewrite lookup_insert_eq. by eexists.
Qed.

Lemma enter_class_classes_mono k c bases body s :
  is_Some (classes s !! k) → is_Some (classes (enter_class c bases body s) !! k).
Proof.
  intros Hs. unfold enter_class. apply visit_items_classes_is_Some.
  rewrite store_inheritance_classes. simpl.
  rewrite lookup_insert. case_decide; [by eexists | done].
Qed.

Lemma visit_classes_mono k t s :
  is_Some (classes s !! k) → is_Some (classes (visit t s) !! k).
Proof.
  apply (visit_preserves (λ s, is_Some (classes s !! k))); [|done].
  intros. by apply enter_class_classes_mono.
Qed.

Lemma visit_all_classes_mono k l s :
  is_Some (classes s !! k) → is_Some (classes (visit_all l s) !! k).
Proof.
  revert s. induction l as [|x r IH]; intros s Hs; [done|].
  rewrite visit_all_cons. by apply IH, visit_classes_mono.
Qed.

Lemma visit_registers k t s :
  k ∈ class_names t → is_Some (classes (visit t s) !! k).
Proof.
  revert s. induction t as [n IH] using node_children_ind. intros s Hk.
  assert (Hall : ∀ l, Forall (λ t, ∀ s, k ∈ class_names t →
                                        is_Some (classes (visit t s) !! k)) l →
                      ∀ s, k ∈ class_names_forest l →
                           is_Some (classes (visit_all l s) !! k)).
  { clear. induction 1 as [|x r Hx _ IHr]; intros s Hk.
    - by apply elem_of_nil in Hk.
    - rewrite visit_all_cons. unfold class_names_forest in Hk. simpl in Hk.
      apply elem_of_app in Hk as [Hk|Hk]; [|by apply IHr].
      by apply visit_all_classes_mono, Hx. }
  rewrite class_names_unfold, elem_of_app in Hk.
  destruct n as [id|v attr|name fs|name bs ks bd ds|kind fs];
    try (rewrite visit_generic by done; destruct Hk as [Hk|Hk];
         [by apply elem_of_nil in Hk | by apply Hall]).
  rewrite visit_ClassDef. simpl. destruct Hk as [Hk|Hk].
  - apply list_elem_of_singleton in Hk as ->.
    apply visit_all_classes_mono, enter_class_registers.
  - by apply Hall.
Qed.

(** Under a name that was never registered nothing is recorded. *)
Lemma analyze_unregistered tree c :
  classes (analyze tree) !! c = None →
  inheritance_tree (analyze tree) !! c = None ∧
  coupling (analyze tree) !! c = None ∧
  methods_per_class (analyze tree) !! c = None ∧
  attributes_per_class (analyze tree) !! c = None ∧
  method_attribute_usage (analyze tree) !! c = None.
Proof.
  intros Hc. unfold analyze in *.
  assert (Hk : c ∉ class_names tree).
  { intros Hk. apply (visit_registers _ _ init) in Hk. rewrite Hc in Hk.
    by destruct Hk. }
  destruct (visit_agree c tree init Hk) as (_ & -> & -> & -> & -> & ->).
  done.
Qed.

(** ** The recorded parent of a class *)

Lemma or_else_app {A} (l1 l2 : list A) (old : option A) :
  or_else (last (l1 ++ l2)) old = or_else (last l2) (or_else (last l1) old).
Proof. rewrite last_app. by destruct (last l2). Qed.

Lemma bind_subtree {B} (f : node → list B) (l : list node) :
  (l ≫= subtree) ≫= f = l ≫= (λ t, subtree t ≫= f).
Proof.
  induction l as [|x r IH]; [done|].
  change ((x :: r) ≫= subtree) with (subtree x ++ (r ≫= subtree)).
  rewrite bind_app, IH. done.
Qed.

Lemma declared_bases_unfold c n :
  declared_bases c n = own_bases c n ++ (iter_child_nodes n ≫= declared_bases c).
Proof.
  unfold declared_bases at 1. rewrite subtree_unfold.
  change ((n :: iter_child_nodes n ≫= subtree) ≫= own_bases c)
    with (own_bases c n ++ ((iter_child_nodes n ≫= subtree) ≫= own_bases c)).
  by rewrite bind_subtree.
Qed.

Lemma store_inheritance_lookup name bs s :
  inheritance_tree (store_inheritance name bs s) !! name
  = or_else (last (plain_bases bs)) (inheritance_tree s !! name).
Proof.
  unfold store_inheritance. revert s.
  induction bs as [|x l IH]; intros s; simpl; [done|]. rewrite IH.
  destruct x as [id| | | |]; try done.
  unfold plain_bases. simpl. rewrite last_cons, lookup_insert_eq.
  by destruct (last _).
Qed.

Lemma analyze_method_inheritance_tree c m node s :
  inheritance_tree (analyze_method c m node s) = inheritance_tree s.
Proof.
  unfold analyze_method. generalize (walk node). intros l. revert s.
  induction l as [|x l IH]; intros s; simpl; [done|]. rewrite IH.
  destruct x as [id|v attr| | |]; try done.
  - rewrite analyze_node_Name. by case_decide.
  - rewrite analyze_node_Attribute. by destruct (is_self v).
Qed.

Lemma visit_items_inheritance_tree c body s :
  inheritance_tree (visit_items c body s) = inheritance_tree s.
Proof.
  unfold visit_items. revert s.
  induction body as [|x l IH]; intros s; simpl; [done|]. rewrite IH.
  destruct x; try done. simpl. by rewrite analyze_method_inheritance_tree.
Qed.

Lemma enter_class_inheritance c name bs bd s :
  inheritance_tree (enter_class name bs bd s) !! c
  = or_else (last (own_bases c (ClassDef name bs [] bd [])))
            (inheritance_tree s !! c).
Proof.
  simpl. destruct (decide (name = c)) as [->|Hne].
  - unfold enter_class. by rewrite visit_items_inheritance_tree, store_inheritance_lookup.
  - by destruct (enter_class_agree c name bs bd s) as (_ & -> & _).
Qed.

Lemma visit_all_inheritance c l :
  Forall (λ t, ∀ s, inheritance_tree (visit t s) !! c
                    = or_else (last (declared_bases c t)) (inheritance_tree s !! c)) l →
  ∀ s, inheritance_tree (visit_all l s) !! c
       = or_else (last (l ≫= declared_bases c)) (inheritance_tree s !! c).
Proof.
  induction 1 as [|x r Hx _ IH]; intros s; [done|].
  rewrite visit_all_cons, IH, Hx.
  change ((x :: r) ≫= declared_bases c)
    with (declared_bases c x ++ (r ≫= declared_bases c)).
  by rewrite or_else_app.
Qed.

(** After a visit the parent recorded for [c] is the last plain-name base
    of the last definition of [c] that has one; without such a definition
    the record is as before. *)
Lemma visit_inheritance c t s :
  inheritance_tree (visit t s) !! c
  = or_else (last (declared_bases c t)) (inheritance_tree s !! c).
Proof.
  revert s. induction t as [n IH] using node_children_ind. intros s.
  rewrite declared_bases_unfold.
  destruct n as [id|v attr|name fs|name bs ks bd ds|kind fs];
    try (rewrite visit_generic by done; by apply visit_all_inheritance).
  rewrite visit_ClassDef, or_else_app. simpl inheritance_tree.
  rewrite (visit_all_inheritance c _ IH). f_equal.
  apply enter_class_inheritance.
Qed.

Lemma analyze_inheritance c tree :
  inheritance_tree (analyze tree) !! c = last (declared_bases c tree).
Proof.
  unfold analyze. rewrite visit_inheritance. simpl.
  by destruct (last _).
Qed.

Lemma bind_nil_forall {A B} (f : A → list B) (l : list A) :
  (∀ x, x ∈ l → f x = []) → l ≫= f = [].
Proof.
  induction l as [|x r IH]; intros H; [done|].
  change ((x :: r) ≫= f) with (f x ++ (r ≫= f)).
  rewrite H, IH; [done | | left]. intros y Hy. apply H. by right.
Qed.

Lemma declared_bases_undeclared c t : c ∉ class_names t → declared_bases c t = [].
Proof.
  intros Hc. apply bind_nil_forall. intros n Hn.
  destruct n as [| | |name bs ks bd ds|]; try done. simpl.
  case_decide as Hname; [|done]. destruct Hc.
  apply list_elem_of_omap. exists (ClassDef name bs ks bd ds). by subst.
Qed.

Lemma declared_bases_forest_undeclared c l :
  c ∉ class_names_forest l → l ≫= declared_bases c = [].
Proof.
  intros Hc. apply bind_nil_forall. intros t Ht.
  apply declared_bases_undeclared. intros Hin. apply Hc.
  apply list_elem_of_bind. by exists t.
Qed.

(** ** Depth of inheritance *)

(** C1, as stated, fails: on two classes that name each other as base
    the loop of [calculate_dit] is still running after any number of
    tests; nothing detects the revisit. *)
Lemma calculate_dit_cycle_never_returns :
  revisits (inheritance_tree (analyze unit_cycle)) "A" ∧
  ∀ fuel, calculate_dit fuel "A" (analyze unit_cycle) = None.
Proof.
  assert (H : revisits (inheritance_tree (analyze unit_cycle)) "A").
  { exists 0, 2, "A". split_and!; [lia | reflexivity | reflexivity]. }
  split; [done|]. intros fuel. unfold calculate_dit. by apply revisits_dit_loop.
Qed.

(** C1, amended.  [calculate_dit] returns exactly on the chains of parent
    links that revisit no class name: such a chain has some number [n] of
    links, at most the number of recorded parents, and the result is [n]
    as soon as the loop may test [n + 1] times.  On a chain that revisits a
    name there is no detection and the loop never returns. *)
Theorem calculate_dit_returns_iff_acyclic (s : analyzer) (c : string) :
  ((∃ n, hops (inheritance_tree s) c n) ↔ ¬ revisits (inheritance_tree s) c) ∧
  (∀ n, hops (inheritance_tree s) c n →
        n ≤ size (inheritance_tree s) ∧
        ∀ fuel, n < fuel → calculate_dit fuel c s = Some n) ∧
  (revisits (inheritance_tree s) c → ∀ fuel, calculate_dit fuel c s = None) ∧
  (∀ fuel r, calculate_dit fuel c s = Some r → hops (inheritance_tree s) c r).
Proof.
  unfold calculate_dit. split_and!.
  - split.
    + intros [n Hn]. by eapply hops_not_revisits.
    + intros Hrev. by destruct (hops_or_revisits (inheritance_tree s) c).
  - intros n Hn. split.
    + destruct (dit_loop (S (size (inheritance_tree s))) (inheritance_tree s) 0 c)
        as [r|] eqn:H.
      * apply dit_loop_Some in H as (m & ? & Hm & _).
        rewrite (hops_unique _ _ _ _ Hn Hm). lia.
      * apply dit_loop_None_revisits in H. by destruct (hops_not_revisits _ _ _ Hn).
    + intros fuel Hfuel. apply dit_loop_Some. exists n. done.
  - intros Hrev fuel. by apply revisits_dit_loop.
  - intros fuel r H. apply dit_loop_Some in H as (n & _ & Hn & ->). done.
Qed.

Lemma calculate_dit_returns_iff_acyclic_witness :
  hops (inheritance_tree (analyze unit_person_student)) "Student" 1 ∧
  calculate_dit 2 "Student" (analyze unit_person_student) = Some 1.
Proof.
  assert (H : hops (inheritance_tree (analyze unit_person_student)) "Student" 1).
  { exists "Person". split; reflexivity. }
  split; [exact H|].
  destruct (calculate_dit_returns_iff_acyclic (analyze unit_person_student) "Student")
    as (_ & Hret & _).
  destruct (Hret 1 H) as [_ Hfuel]. apply Hfuel. lia.
Defined.

(** C5, as stated, fails: a class whose base is not a class of the unit
    gets depth 1, not 0; the hop to the unknown base is counted. *)
Lemma calculate_dit_counts_unknown_base :
  classes (analyze unit_external_base) !! "Person" = None ∧
  inheritance_tree (analyze unit_external_base) !! "Student" = Some "Person" ∧
  (∀ fuel, calculate_dit (S (S fuel)) "Student" (analyze unit_external_base) = Some 1) ∧
  (∀ fuel, calculate_dit fuel "Student" (analyze unit_external_base) ≠ Some 0).
Proof.
  assert (H : hops (inheritance_tree (analyze unit_external_base)) "Student" 1).
  { exists "Person". split; reflexivity. }
  split_and!; [reflexivity | reflexivity | |].
  - intros fuel. unfold calculate_dit. apply dit_loop_Some. exists 1.
    split_and!; [lia | done | reflexivity].
  - intros fuel Hzero. unfold calculate_dit in Hzero.
    apply dit_loop_Some in Hzero as (n & _ & Hn & Hsum).
    pose proof (hops_unique _ _ _ _ H Hn). lia.
Qed.

(** C5, amended.  On the registry built from any unit, if the chain of
    recorded parent links of a class has [n] links before it reaches a name
    without a recorded parent, [calculate_dit] returns [n], and the [n]
    names the links start from are registered classes; the name the chain
    ends at need not be.  So the result is 0 for a class none of whose
    definitions has a plain-name base, and 1 for a class whose recorded
    base is absent from the registry. *)
Theorem calculate_dit_counts_links (tree : node) (c : string) :
  (∀ n, hops (inheritance_tree (analyze tree)) c n →
        (∀ fuel, n < fuel → calculate_dit fuel c (analyze tree) = Some n) ∧
        (∀ i x, i < n → ancestor (inheritance_tree (analyze tree)) i c = Some x →
                is_Some (classes (analyze tree) !! x))) ∧
  (declared_bases c tree = [] →
   ∀ fuel, 0 < fuel → calculate_dit fuel c (analyze tree) = Some 0) ∧
  (∀ p, inheritance_tree (analyze tree) !! c = Some p →
        classes (analyze tree) !! p = None →
        ∀ fuel, 1 < fuel → calculate_dit fuel c (analyze tree) = Some 1).
Proof.
  unfold calculate_dit. split_and!.
  - intros n Hn. split.
    + intros fuel Hfuel. apply dit_loop_Some. by exists n.
    + intros i x Hi Hx.
      destruct (hops_ancestor _ _ _ _ _ Hn Hx) as [_ Hrest].
      apply hops_inv in Hrest.
      destruct (classes (analyze tree) !! x) eqn:Hreg; [by eexists|].
      apply analyze_unregistered in Hreg as [Hnone _]. rewrite Hnone in Hrest. lia.
  - intros Hbases fuel Hfuel. apply dit_loop_Some. exists 0.
    split_and!; [lia | | reflexivity]. apply hops_0.
    by rewrite analyze_inheritance, Hbases.
  - intros p Hc Hp fuel Hfuel. apply dit_loop_Some. exists 1.
    split_and!; [lia | | reflexivity]. eapply hops_S; [done|]. apply hops_0.
    by apply analyze_unregistered in Hp as [-> _].
Qed.

Lemma calculate_dit_counts_links_witness :
  calculate_dit 3 "Student" (analyze unit_person_student) = Some 1 ∧
  calculate_dit 3 "Person" (analyze unit_person_student) = Some 0 ∧
  calculate_dit 3 "Student" (analyze unit_external_base) = Some 1.
Proof.
  split_and!.
  - destruct (calculate_dit_counts_links unit_person_student "Student") as (H & _).
    apply (H 1); [|lia]. exists "Person". split; reflexivity.
  - destruct (calculate_dit_counts_links unit_person_student "Person") as (_ & H & _).
    apply H; [reflexivity | lia].
  - destruct (calculate_dit_counts_links unit_external_base "Student") as (_ & _ & H).
    apply (H "Person"); [reflexivity | reflexivity | lia].
Defined.

(** C10.  For a name no visited class definition registered, each of the
    three metrics returns 0: [calculate_dit] at its first loop test, and
    the other two on the empty default of their dictionaries. *)
Theorem unregistered_metrics_zero (tree : node) (c : string) :
  classes (analyze tree) !! c = None →
  (∀ fuel, calculate_dit (S fuel) c (analyze tree) = Some 0) ∧
  (calculate_cbo c (analyze tree)).1 = 0 ∧
  (calculate_lcom c (analyze tree)).1 = 0%Z.
Proof.
  intros Hc. apply analyze_unregistered in Hc as (Ht & Hcp & Hm & _).
  split_and!.
  - intros fuel. unfold calculate_dit. simpl. by rewrite Ht.
  - unfold calculate_cbo, getitem_default. simpl. by rewrite Hcp.
  - unfold calculate_lcom, getitem_default. by rewrite Hm.
Qed.

Lemma unregistered_metrics_zero_witness :
  calculate_dit 1 "Ghost" (analyze unit_person_student) = Some 0 ∧
  (calculate_cbo "Ghost" (analyze unit_person_student)).1 = 0 ∧
  (calculate_lcom "Ghost" (analyze unit_person_student)).1 = 0%Z.
Proof.
  destruct (unregistered_metrics_zero unit_person_student "Ghost") as (H1 & H2 & H3);
    [reflexivity|].
  split_and!; [apply H1 | exact H2 | exact H3].
Defined.

(** ** Several bases *)

Lemma visit_items_base_classes c body s bs :
  base_classes <$> classes s !! c = Some bs →
  base_classes <$> classes (visit_items c body s) !! c = Some bs.
Proof.
  unfold visit_items. revert s.
  induction body as [|x l IH]; intros s Hs; simpl; [done|]. apply IH.
  destruct x; try done. simpl. rewrite analyze_method_classes. simpl.
  rewrite lookup_alter_eq. destruct (classes s !! c); [done | discriminate].
Qed.

(** C6, as stated, fails: of the bases [A, B] it is [B], the last one,
    that ends up as the parent, and the depth of [C] is that of the chain
    through [B] (1), not through [A] (2). *)
Lemma visit_ClassDef_keeps_last_base :
  inheritance_tree (analyze unit_two_bases) !! "C" = Some "B" ∧
  inheritance_tree (analyze unit_two_bases) !! "C" ≠ Some "A" ∧
  calculate_dit 5 "A" (analyze unit_two_bases) = Some 1 ∧
  calculate_dit 5 "B" (analyze unit_two_bases) = Some 0 ∧
  calculate_dit 5 "C" (analyze unit_two_bases) = Some 1.
Proof. split_and!; [reflexivity | discriminate | reflexivity ..]. Qed.

(** C6, amended.  A class definition with several bases is visited
    without error and leaves the class registered.  The parent recorded for
    DIT is the last plain-name base in visiting order among the bases of
    the definition and those of the definitions of the same class name
    nested inside it; if none of them is a plain name the record is left
    as it was.  For a definition that contains no definition of the same
    name this is the last plain-name base of the definition itself, and
    the registry entry lists all its bases (a base that is not a plain
    name as ["object"]). *)
Theorem visit_ClassDef_records_last_base
    (name : string) (bs ks bd ds : list node) (s : analyzer) :
  inheritance_tree (visit (ClassDef name bs ks bd ds) s) !! name
    = or_else (last (plain_bases bs
                     ++ ((bs ++ ks ++ bd ++ ds) ≫= declared_bases name)))
              (inheritance_tree s !! name) ∧
  is_Some (classes (visit (ClassDef name bs ks bd ds) s) !! name) ∧
  (name ∉ class_names_forest (bs ++ ks ++ bd ++ ds) →
   inheritance_tree (visit (ClassDef name bs ks bd ds) s) !! name
     = or_else (last (plain_bases bs)) (inheritance_tree s !! name) ∧
   base_classes <$> classes (visit (ClassDef name bs ks bd ds) s) !! name
     = Some (base_id <$> bs)).
Proof.
  assert (Hparent :
    inheritance_tree (visit (ClassDef name bs ks bd ds) s) !! name
    = or_else (last (plain_bases bs
                     ++ ((bs ++ ks ++ bd ++ ds) ≫= declared_bases name)))
              (inheritance_tree s !! name)).
  { rewrite visit_inheritance, declared_bases_unfold. simpl.
    by rewrite decide_True. }
  split_and!; [exact Hparent | |].
  - apply visit_registers. rewrite class_names_unfold. simpl. left.
  - intros Hnested. split.
    + rewrite Hparent, declared_bases_forest_undeclared by done.
      by rewrite app_nil_r.
    + rewrite visit_ClassDef. simpl classes.
      destruct (visit_all_agree name (bs ++ ks ++ bd ++ ds)) with
        (s := enter_class name bs bd s) as (-> & _); [|done|].
      { apply Forall_forall. intros t _ s'. apply visit_agree. }
      unfold enter_class. apply visit_items_base_classes.
      rewrite store_inheritance_classes. simpl. by rewrite lookup_insert_eq.
Qed.

Lemma visit_ClassDef_records_last_base_witness :
  inheritance_tree
    (visit (ClassDef "C" [Name "A"; Attribute (Name "pkg") "Mixin"; Name "B"] []
              [pass_stmt] []) init) !! "C" = Some "B" ∧
  base_classes <$>
    classes
      (visit (ClassDef "C" [Name "A"; Attribute (Name "pkg") "Mixin"; Name "B"] []
                [pass_stmt] []) init) !! "C" = Some ["A"; "object"; "B"].
Proof.
  destruct (visit_ClassDef_records_last_base "C"
              [Name "A"; Attribute (Name "pkg") "Mixin"; Name "B"] [] [pass_stmt] [] init)
    as (_ & _ & H).
  apply H. vm_compute. intros Hin.
  by repeat (apply elem_of_cons in Hin as [Hin|Hin]; [discriminate|]);
    apply elem_of_nil in Hin.
Defined.

(** ** Lack of cohesion *)

Section lcom.
Variable method_attrs : gmap string (gset string).
Variable methods : list string.

Lemma inner_loop_positions i method1 k pq :
  methods !! i = Some method1 →
  foldl (lcom_pair method_attrs method1) pq (drop k methods)
  = foldl (count_pair method_attrs methods) pq
      ((λ j, (i, j)) <$> seq k (length methods - k)).
Proof.
  intros Hi. remember (length methods - k) as d eqn:Hd.
  revert k pq Hd. induction d as [|d IH]; intros k pq Hd.
  - rewrite drop_ge by lia. done.
  - destruct (lookup_lt_is_Some_2 methods k) as [method2 Hk]; [lia|].
    rewrite (drop_S _ _ _ Hk). simpl. rewrite IH by lia. f_equal.
    unfold lcom_pair, count_pair, shares, attrs_of. simpl. by rewrite Hi, Hk.
Qed.

Lemma outer_loop_positions (f : Z * Z → nat * string → Z * Z)
    (g : Z * Z → nat → Z * Z) k pq :
  (∀ pq i m, methods !! i = Some m → f pq (i, m) = g pq i) →
  foldl f pq (drop k (enumerate methods))
  = foldl g pq (seq k (length methods - k)).
Proof.
  intros Hfg. remember (length methods - k) as d eqn:Hd.
  revert k pq Hd. induction d as [|d IH]; intros k pq Hd.
  - rewrite drop_ge; [done|]. unfold enumerate. rewrite length_imap. lia.
  - destruct (lookup_lt_is_Some_2 methods k) as [m Hk]; [lia|].
    assert (Hek : enumerate methods !! k = Some (k, m)).
    { unfold enumerate. by rewrite list_lookup_imap, Hk. }
    rewrite (drop_S _ _ _ Hek). simpl. rewrite IH by lia.
    by rewrite (Hfg _ _ _ Hk).
Qed.

(** The loops visit [loop_pairs] and count each pair once. *)
Lemma lcom_loops_positions :
  lcom_loops method_attrs methods
  = foldl (count_pair method_attrs methods) (0%Z, 0%Z)
      (loop_pairs (length methods)).
Proof.
  unfold lcom_loops, loop_pairs.
  pose proof (outer_loop_positions
    (λ pq im, foldl (lcom_pair method_attrs im.2) pq (drop (im.1 + 1) methods))
    (λ pq i, foldl (count_pair method_attrs methods) pq
               ((λ j, (i, j)) <$> seq (i + 1) (length methods - (i + 1))))
    0 (0%Z, 0%Z)) as H.
  rewrite drop_0, Nat.sub_0_r in H. rewrite H.
  - generalize (seq 0 (length methods)). generalize (0%Z, 0%Z).
    intros pq l. revert pq. induction l as [|i l IH]; intros pq; [done|].
    change ((i :: l) ≫= (λ i, (λ j, (i, j)) <$> seq (i + 1) (length methods - (i + 1))))
      with (((λ j, (i, j)) <$> seq (i + 1) (length methods - (i + 1)))
            ++ (l ≫= (λ i, (λ j, (i, j)) <$> seq (i + 1) (length methods - (i + 1))))).
    rewrite foldl_app. simpl. apply IH.
  - intros pq i m Hi. simpl. by apply inner_loop_positions.
Qed.

Lemma count_pair_foldl l p q :
  foldl (count_pair method_attrs methods) (p, q) l
  = ((p + Z.of_nat (length (List.filter
                              (λ ij, negb (shares method_attrs methods ij)) l)))%Z,
     (q + Z.of_nat (length (List.filter (shares method_attrs methods) l)))%Z).
Proof.
  revert p q. induction l as [|ij l IH]; intros p q; simpl.
  - f_equal; lia.
  - unfold count_pair at 2. destruct (shares method_attrs methods ij); simpl;
      rewrite IH; f_equal; lia.
Qed.
End lcom.

Lemma elem_of_position_pairs n i j : (i, j) ∈ position_pairs n ↔ i < j < n.
Proof.
  unfold position_pairs. rewrite list_elem_of_bind. split.
  - intros (j' & Hin & Hj'). apply list_elem_of_fmap in Hin as (i' & [= -> ->] & Hi').
    apply elem_of_seq in Hj', Hi'. lia.
  - intros ?. exists j. split; [|apply elem_of_seq; lia].
    apply list_elem_of_fmap. exists i. split; [done | apply elem_of_seq; lia].
Qed.

Lemma elem_of_loop_pairs n i j : (i, j) ∈ loop_pairs n ↔ i < j < n.
Proof.
  unfold loop_pairs. rewrite list_elem_of_bind. split.
  - intros (i' & Hin & Hi'). apply list_elem_of_fmap in Hin as (j' & [= -> ->] & Hj').
    apply elem_of_seq in Hj', Hi'. lia.
  - intros ?. exists i. split; [|apply elem_of_seq; lia].
    apply list_elem_of_fmap. exists j. split; [done | apply elem_of_seq; lia].
Qed.

Lemma NoDup_position_pairs n : NoDup (position_pairs n).
Proof.
  unfold position_pairs. apply NoDup_bind; [| |apply NoDup_seq].
  - intros j1 j2 [i j] _ _ H1 H2.
    apply list_elem_of_fmap in H1 as (? & [= -> ->] & _).
    apply list_elem_of_fmap in H2 as (? & [= _ ->] & _). done.
  - intros j _. apply NoDup_fmap_2; [|apply NoDup_seq]. by intros ?? [= ->].
Qed.

Lemma NoDup_loop_pairs n : NoDup (loop_pairs n).
Proof.
  unfold loop_pairs. apply NoDup_bind; [| |apply NoDup_seq].
  - intros i1 i2 [i j] _ _ H1 H2.
    apply list_elem_of_fmap in H1 as (? & [= -> ->] & _).
    apply list_elem_of_fmap in H2 as (? & [= -> _] & _). done.
  - intros i _. apply NoDup_fmap_2; [|apply NoDup_seq]. by intros ?? [= ->].
Qed.

(** The loops reach every unordered pair of distinct positions once. *)
Lemma loop_pairs_position_pairs n : loop_pairs n ≡ₚ position_pairs n.
Proof.
  apply NoDup_Permutation; [apply NoDup_loop_pairs | apply NoDup_position_pairs |].
  intros [i j]. by rewrite elem_of_loop_pairs, elem_of_position_pairs.
Qed.

Lemma filter_length_Permutation {A} (f : A → bool) (l k : list A) :
  l ≡ₚ k → length (List.filter f l) = length (List.filter f k).
Proof.
  induction 1 as [|x l k _ IH|x y l|l1 l2 l3 _ IH1 _ IH2]; simpl.
  - done.
  - destruct (f x); simpl; by rewrite IH.
  - by destruct (f x), (f y).
  - by rewrite IH1.
Qed.

Lemma length_position_pairs n : 2 * length (position_pairs n) = n * (n - 1).
Proof.
  unfold position_pairs. induction n as [|n IH]; [done|].
  rewrite seq_S, bind_app, length_app, Nat.mul_add_distr_l, IH. simpl.
  rewrite app_nil_r, length_fmap, length_seq. destruct n; simpl; lia.
Qed.

Lemma filter_length_split {A} (f : A → bool) (l : list A) :
  length (List.filter (λ x, negb (f x)) l) + length (List.filter f l) = length l.
Proof. induction l as [|x l IH]; [done|]. simpl. destruct (f x); simpl; lia. Qed.

Lemma lcom_loops_spec method_attrs methods :
  lcom_loops method_attrs methods
  = (Z.of_nat (lcom_P_spec method_attrs methods),
     Z.of_nat (lcom_Q_spec method_attrs methods)).
Proof.
  rewrite lcom_loops_positions, count_pair_foldl.
  unfold lcom_P_spec, lcom_Q_spec.
  by rewrite !(filter_length_Permutation _ _ _ (loop_pairs_position_pairs _)).
Qed.

(** ** [ast.walk] reaches the nodes of the subtree *)

Lemma height_forest l :
  (fix hs (l : list node) : nat :=
     match l with
     | [] => 0
     | x :: r => Nat.max (height x) (hs r)
     end) l = forest_height l.
Proof. induction l as [|x r IH]; [done|]. simpl. by rewrite IH. Qed.

Lemma forest_height_app l1 l2 :
  forest_height (l1 ++ l2) = Nat.max (forest_height l1) (forest_height l2).
Proof. induction l1 as [|x r IH]; [done|]. simpl. rewrite IH. lia. Qed.

Lemma forest_height_elem_of x l : x ∈ l → height x ≤ forest_height l.
Proof.
  induction 1 as [x r|x y r _ IH]; simpl; lia.
Qed.

Lemma height_unfold n : height n = S (forest_height (iter_child_nodes n)).
Proof.
  destruct n as [id|v attr|name fs|name bs ks bd ds|kind fs]; simpl.
  - done.
  - lia.
  - by rewrite height_forest.
  - rewrite (height_forest bs), (height_forest ks), (height_forest bd),
      (height_forest ds), !forest_height_app. done.
  - by rewrite height_forest.
Qed.

Lemma height_child x n : x ∈ iter_child_nodes n → height x < height n.
Proof.
  intros Hx. rewrite (height_unfold n).
  apply forest_height_elem_of in Hx. lia.
Qed.

Lemma subtree_children_Permutation q :
  q ≫= subtree ≡ₚ q ++ ((q ≫= iter_child_nodes) ≫= subtree).
Proof.
  induction q as [|y r IH]; [done|].
  change ((y :: r) ≫= subtree) with (subtree y ++ (r ≫= subtree)).
  change ((y :: r) ≫= iter_child_nodes)
    with (iter_child_nodes y ++ (r ≫= iter_child_nodes)).
  rewrite bind_app, (subtree_unfold y), IH. simpl. constructor.
  rewrite !(assoc_L (++)). apply Permutation_app_tail, Permutation_app_comm.
Qed.

Lemma levels_subtree k q :
  (∀ x, x ∈ q → height x ≤ k) → levels k q ≡ₚ q ≫= subtree.
Proof.
  revert q. induction k as [|k IH]; intros q Hq.
  - destruct q as [|x r]; [done|].
    specialize (Hq x (list_elem_of_here _ _)). rewrite height_unfold in Hq. lia.
  - simpl. rewrite subtree_children_Permutation. apply Permutation_app_head, IH.
    intros x Hx. apply list_elem_of_bind in Hx as (y & Hx & Hy).
    apply height_child in Hx. specialize (Hq y Hy). lia.
Qed.

Lemma walk_subtree n : walk n ≡ₚ subtree n.
Proof.
  unfold walk. rewrite levels_subtree.
  - simpl. by rewrite app_nil_r.
  - intros x Hx. apply list_elem_of_singleton in Hx. by subst.
Qed.

(** ** Coupling *)

Lemma coupled_with_record_coupling s c id x :
  x ∈ coupled_with (record_coupling c id s) c ↔ x ∈ coupled_with s c ∨ x = id.
Proof.
  unfold coupled_with, record_coupling, dd_add, getitem_default. simpl.
  rewrite lookup_insert_eq. simpl. set_solver.
Qed.

Lemma coupled_with_analyze_node c m s n x :
  x ∈ coupled_with (analyze_node c m s n) c
  ↔ x ∈ coupled_with s c ∨ (name_id n = Some x ∧ couples c x).
Proof.
  destruct n as [id|v attr| | |]; simpl name_id;
    try (split; [by left | by intros [?|[[=] _]]]).
  - rewrite analyze_node_Name. fold (couples c id). case_decide as Hid.
    + rewrite coupled_with_record_coupling. split.
      * intros [?| ->]; [by left | by right].
      * intros [?|[[= ->] _]]; [by left | by right].
    + split; [by left|]. by intros [?|[[= ->] ?]].
  - rewrite analyze_node_Attribute. destruct (is_self v).
    + split; [by left | by intros [?|[[=] _]]].
    + split; [by left | by intros [?|[[=] _]]].
Qed.

Lemma coupled_with_analyze_nodes c m l s x :
  x ∈ coupled_with (foldl (analyze_node c m) s l) c
  ↔ x ∈ coupled_with s c ∨ (x ∈ omap name_id l ∧ couples c x).
Proof.
  revert s. induction l as [|n l IH]; intros s; simpl.
  - split; [by left|]. intros [?|[H _]]; [done|]. by apply elem_of_nil in H.
  - rewrite IH, coupled_with_analyze_node.
    destruct (name_id n) as [id|] eqn:Hn.
    + rewrite elem_of_cons. split.
      * intros [[?|[[= ->] ?]]|[? ?]]; [by left | right; by split; [left|] |].
        right. split; [by right | done].
      * intros [?|[[-> | ?] ?]]; [by left; left | by left; right | by right].
    + split.
      * intros [[?|[[=] _]]|?]; [by left | by right].
      * intros [?|?]; [by left; left | by right].
Qed.

Lemma coupled_with_analyze_method c m node s x :
  x ∈ coupled_with (analyze_method c m node s) c
  ↔ x ∈ coupled_with s c ∨ (x ∈ names_in node ∧ couples c x).
Proof.
  unfold analyze_method, names_in. rewrite coupled_with_analyze_nodes.
  assert (x ∈ omap name_id (walk node) ↔ x ∈ omap name_id (subtree node)) as ->;
    [|done].
  rewrite !list_elem_of_omap. by setoid_rewrite (walk_subtree node).
Qed.

Lemma coupled_with_visit_item c s item x :
  x ∈ coupled_with (visit_item c s item) c
  ↔ x ∈ coupled_with s c
    ∨ (x ∈ (if is_FunctionDef item then names_in item else []) ∧ couples c x).
Proof.
  destruct item as [| |name fs| |]; simpl;
    try (split; [by left | intros [?|[H _]]; [done | by apply elem_of_nil in H]]).
  by rewrite coupled_with_analyze_method.
Qed.

Lemma coupled_with_visit_items c body s x :
  x ∈ coupled_with (visit_items c body s) c
  ↔ x ∈ coupled_with s c
    ∨ (x ∈ List.filter is_FunctionDef body ≫= names_in ∧ couples c x).
Proof.
  unfold visit_items. revert s. induction body as [|item l IH]; intros s; simpl.
  - split; [by left | intros [?|[H _]]; [done | by apply elem_of_nil in H]].
  - rewrite IH, coupled_with_visit_item. destruct (is_FunctionDef item).
    + change ((item :: List.filter is_FunctionDef l) ≫= names_in)
        with (names_in item ++ (List.filter is_FunctionDef l ≫= names_in)).
      rewrite elem_of_app. tauto.
    + split.
      * intros [[?|[H _]]|?]; [by left | by apply elem_of_nil in H | by right].
      * intros [?|?]; [by left; left | by right].
Qed.

Lemma coupled_with_agree c s s' :
  agree_at c s s' → coupled_with s' c = coupled_with s c.
Proof. intros (_ & _ & H & _). unfold coupled_with, getitem_default. by rewrite H. Qed.

Lemma store_inheritance_coupling c bs s :
  coupling (store_inheritance c bs s) = coupling s.
Proof.
  unfold store_inheritance. revert s.
  induction bs as [|b l IH]; intros s; simpl; [done|]. rewrite IH. by destruct b.
Qed.

Lemma coupled_with_enter_class c name bs bd s x :
  x ∈ coupled_with (enter_class name bs bd s) c
  ↔ x ∈ coupled_with s c
    ∨ (x ∈ own_methods c (ClassDef name bs [] bd []) ≫= names_in ∧ couples c x).
Proof.
  simpl. destruct (decide (name = c)) as [->|Hne].
  - unfold enter_class. rewrite coupled_with_visit_items.
    assert (coupled_with (store_inheritance c bs (register_class c bs bd s)) c
            = coupled_with s c) as ->; [|done].
    unfold coupled_with. by rewrite store_inheritance_coupling.
  - rewrite (coupled_with_agree c s); [|by apply enter_class_agree].
    split; [by left | intros [?|[H _]]; [done | by apply elem_of_nil in H]].
Qed.

Lemma methods_of_unfold c n :
  methods_of c n = own_methods c n ++ (iter_child_nodes n ≫= methods_of c).
Proof.
  unfold methods_of at 1. rewrite subtree_unfold.
  change ((n :: iter_child_nodes n ≫= subtree) ≫= own_methods c)
    with (own_methods c n ++ ((iter_child_nodes n ≫= subtree) ≫= own_methods c)).
  by rewrite bind_subtree.
Qed.

Lemma coupled_with_visit_all c x l :
  Forall (λ t, ∀ s, x ∈ coupled_with (visit t s) c
                    ↔ x ∈ coupled_with s c ∨ (x ∈ referenced c t ∧ couples c x)) l →
  ∀ s, x ∈ coupled_with (visit_all l s) c
       ↔ x ∈ coupled_with s c
         ∨ (x ∈ (l ≫= methods_of c) ≫= names_in ∧ couples c x).
Proof.
  induction 1 as [|t r Ht _ IH]; intros s.
  - split; [by left | intros [?|[H _]]; [done | by apply elem_of_nil in H]].
  - rewrite visit_all_cons, IH, Ht.
    change ((t :: r) ≫= methods_of c) with (methods_of c t ++ (r ≫= methods_of c)).
    rewrite bind_app, elem_of_app. unfold referenced. tauto.
Qed.

(** After a visit the coupling set of [c] holds, besides what it held
    before, the identifiers mentioned in the methods of [c] that pass the
    test of [analyze_method]. *)
Lemma coupled_with_visit c x t s :
  x ∈ coupled_with (visit t s) c
  ↔ x ∈ coupled_with s c ∨ (x ∈ referenced c t ∧ couples c x).
Proof.
  revert s. induction t as [n IH] using node_children_ind. intros s.
  unfold referenced. rewrite methods_of_unfold, bind_app, elem_of_app.
  destruct n as [id|v attr|name fs|name bs ks bd ds|kind fs];
    try (rewrite visit_generic by done; rewrite (coupled_with_visit_all c x _ IH);
         simpl own_methods; change (@nil node ≫= names_in) with (@nil string);
         rewrite elem_of_nil; tauto).
  rewrite visit_ClassDef.
  assert (∀ s0, coupled_with (set_current_class None s0) c = coupled_with s0 c)
    as -> by done.
  rewrite (coupled_with_visit_all c x _ IH), coupled_with_enter_class.
  simpl own_methods. tauto.
Qed.

Lemma coupled_with_analyze c x tree :
  x ∈ coupled_with (analyze tree) c ↔ x ∈ referenced c tree ∧ couples c x.
Proof.
  unfold analyze. rewrite coupled_with_visit.
  assert (coupled_with init c = ∅) as -> by done.
  rewrite elem_of_empty. tauto.
Qed.

(** C4, as stated, fails both ways: a mention of [Course] counts although
    the unit defines no such class, and a mention of a class of the unit
    that is not one of the five listed names does not count. *)
Lemma calculate_cbo_ignores_registry :
  (coupling_targets_spec "Report" unit_undefined_name = [] ∧
   (calculate_cbo "Report" (analyze unit_undefined_name)).1 = 1) ∧
  (coupling_targets_spec "Student" unit_unlisted_class = ["PerformanceCalculator"] ∧
   (calculate_cbo "Student" (analyze unit_unlisted_class)).1 = 0).
Proof. vm_compute. done. Qed.

(** C4, amended.  On the registry built from any unit, [calculate_cbo]
    returns the number of distinct names, among the five hard-coded class
    names, that the methods of the class mention; whether the unit defines
    them plays no part.  The class's own name is never counted, and
    mentioning a name again does not change the count. *)
Theorem calculate_cbo_counts_known_names (tree : node) (c : string) :
  (calculate_cbo c (analyze tree)).1 = length (coupling_targets c tree) ∧
  NoDup (coupling_targets c tree) ∧
  (c ∉ coupling_targets c tree) ∧
  (∀ id, id ∈ coupling_targets c tree
         ↔ id ∈ referenced c tree ∧ id ∈ known_classes ∧ id ≠ c) ∧
  (∀ tree', (∀ id, id ∈ referenced c tree ↔ id ∈ referenced c tree') →
            (calculate_cbo c (analyze tree')).1 = (calculate_cbo c (analyze tree)).1).
Proof.
  assert (Hmem : ∀ t id, id ∈ coupling_targets c t
                         ↔ id ∈ referenced c t ∧ id ∈ known_classes ∧ id ≠ c).
  { intros t id. unfold coupling_targets.
    rewrite elem_of_remove_dups, list_elem_of_filter. unfold couples. tauto. }
  assert (Hsize : ∀ t, (calculate_cbo c (analyze t)).1 = length (coupling_targets c t)).
  { intros t. unfold calculate_cbo. simpl. fold (coupled_with (analyze t) c).
    assert (coupled_with (analyze t) c = list_to_set (coupling_targets c t)) as ->.
    { apply set_eq. intros id.
      rewrite coupled_with_analyze, elem_of_list_to_set, Hmem. unfold couples. tauto. }
    apply size_list_to_set, NoDup_remove_dups. }
  split_and!.
  - apply Hsize.
  - apply NoDup_remove_dups.
  - rewrite Hmem. tauto.
  - apply Hmem.
  - intros tree' Hsame. rewrite !Hsize. apply Permutation_length.
    apply NoDup_Permutation; [apply NoDup_remove_dups | apply NoDup_remove_dups |].
    intros id. rewrite !Hmem, Hsame. tauto.
Qed.

Lemma calculate_cbo_counts_known_names_witness :
  (calculate_cbo "Student" (analyze unit_repeated_mentions)).1 = 3 ∧
  (calculate_cbo "Student" (analyze unit_single_mentions)).1
  = (calculate_cbo "Student" (analyze unit_repeated_mentions)).1.
Proof.
  split.
  - destruct (calculate_cbo_counts_known_names unit_repeated_mentions "Student")
      as (-> & _).
    vm_compute. reflexivity.
  - destruct (calculate_cbo_counts_known_names unit_repeated_mentions "Student")
      as (_ & _ & _ & _ & H).
    apply H. intros id.
    change (referenced "Student" unit_repeated_mentions)
      with ["Course"; "Lecturer"; "Student"; "Course"; "Registrar"; "Helper"].
    change (referenced "Student" unit_single_mentions)
      with ["Helper"; "Registrar"; "Student"; "Lecturer"; "Course"].
    rewrite !elem_of_cons, !elem_of_nil. tauto.
Defined.

(** ** What the registry holds for the methods of a class *)

Lemma methods_list_agree c s s' :
  agree_at c s s' → methods_list s' c = methods_list s c.
Proof.
  intros (_ & _ & _ & H & _). unfold methods_list, getitem_default. by rewrite H.
Qed.

Lemma analyze_method_methods_per_class c m node s :
  methods_per_class (analyze_method c m node s) = methods_per_class s.
Proof.
  unfold analyze_method. generalize (walk node). intros l. revert s.
  induction l as [|x l IH]; intros s; simpl; [done|]. rewrite IH.
  destruct x as [id|v attr| | |]; try done.
  - rewrite analyze_node_Name. by case_decide.
  - rewrite analyze_node_Attribute. by destruct (is_self v).
Qed.

Lemma methods_list_visit_items c body s :
  methods_list (visit_items c body s) c
  = methods_list s c ++ omap function_name (List.filter is_FunctionDef body).
Proof.
  unfold visit_items. revert s. induction body as [|item l IH]; intros s; simpl.
  - by rewrite app_nil_r.
  - rewrite IH. destruct item as [| |name fs| |]; try done. simpl.
    unfold methods_list at 1. rewrite analyze_method_methods_per_class. simpl.
    unfold dd_append, getitem_default at 1. rewrite lookup_insert_eq. simpl.
    by rewrite <- (assoc_L (++)).
Qed.

Lemma store_inheritance_methods_per_class c bs s :
  methods_per_class (store_inheritance c bs s) = methods_per_class s.
Proof.
  unfold store_inheritance. revert s.
  induction bs as [|b l IH]; intros s; simpl; [done|]. rewrite IH. by destruct b.
Qed.

Lemma methods_list_enter_class c name bs bd s :
  methods_list (enter_class name bs bd s) c
  = methods_list s c ++ omap function_name (own_methods c (ClassDef name bs [] bd [])).
Proof.
  simpl. destruct (decide (name = c)) as [->|Hne].
  - unfold enter_class. rewrite methods_list_visit_items. f_equal.
    unfold methods_list. by rewrite store_inheritance_methods_per_class.
  - rewrite (methods_list_agree c s); [|by apply enter_class_agree].
    by rewrite app_nil_r.
Qed.

Lemma methods_list_visit_all c l :
  Forall (λ t, ∀ s, methods_list (visit t s) c
                    = methods_list s c ++ omap function_name (methods_of c t)) l →
  ∀ s, methods_list (visit_all l s) c
       = methods_list s c ++ omap function_name (l ≫= methods_of c).
Proof.
  induction 1 as [|t r Ht _ IH]; intros s.
  - by rewrite app_nil_r.
  - rewrite visit_all_cons, IH, Ht.
    change ((t :: r) ≫= methods_of c) with (methods_of c t ++ (r ≫= methods_of c)).
    by rewrite omap_app, (assoc_L (++)).
Qed.

(** The method list of [c] grows by the names of the function definitions
    directly in the bodies of the definitions of [c], in visiting order;
    a name defined twice is listed twice. *)
Lemma methods_list_visit c t s :
  methods_list (visit t s) c
  = methods_list s c ++ omap function_name (methods_of c t).
Proof.
  revert s. induction t as [n IH] using node_children_ind. intros s.
  rewrite methods_of_unfold, omap_app.
  destruct n as [id|v attr|name fs|name bs ks bd ds|kind fs];
    try (rewrite visit_generic by done; by rewrite (methods_list_visit_all c _ IH)).
  rewrite visit_ClassDef.
  assert (∀ s0, methods_list (set_current_class None s0) c = methods_list s0 c)
    as -> by done.
  rewrite (methods_list_visit_all c _ IH), methods_list_enter_class.
  by rewrite (assoc_L (++)).
Qed.

Lemma methods_list_analyze c tree :
  methods_list (analyze tree) c = omap function_name (methods_of c tree).
Proof. unfold analyze. by rewrite methods_list_visit. Qed.

Lemma usage_of_agree c m s s' :
  agree_at c s s' → usage_of s' c m = usage_of s c m.
Proof.
  intros (_ & _ & _ & _ & _ & H). unfold usage_of, getitem_default. by rewrite H.
Qed.

Lemma usage_of_record_attribute c m m' attr s x :
  x ∈ usage_of (record_attribute c m attr s) c m'
  ↔ x ∈ usage_of s c m' ∨ (m = m' ∧ x = attr).
Proof.
  unfold usage_of, record_attribute, dd_add2, dd_add, attrs_of. simpl.
  unfold getitem_default at 1. rewrite lookup_insert_eq. simpl.
  destruct (decide (m = m')) as [->|Hne].
  - rewrite lookup_insert_eq. simpl. unfold getitem_default at 1.
    rewrite elem_of_union, elem_of_singleton. tauto.
  - rewrite lookup_insert_ne by done. tauto.
Qed.

Lemma usage_of_analyze_node c m m' s n x :
  x ∈ usage_of (analyze_node c m s n) c m'
  ↔ x ∈ usage_of s c m' ∨ (m = m' ∧ self_attr n = Some x).
Proof.
  destruct n as [id|v attr| | |]; simpl self_attr;
    try (split; [by left | by intros [?|[_ [=]]]]).
  - rewrite analyze_node_Name. case_decide; [|split; [by left | by intros [?|[_ [=]]]]].
    split; [by left | by intros [?|[_ [=]]]].
  - rewrite analyze_node_Attribute. destruct (is_self v).
    + rewrite usage_of_record_attribute. split.
      * intros [?|[-> ->]]; [by left | by right].
      * intros [?|[-> [= ->]]]; [by left | by right].
    + split; [by left | by intros [?|[_ [=]]]].
Qed.

Lemma usage_of_analyze_nodes c m m' l s x :
  x ∈ usage_of (foldl (analyze_node c m) s l) c m'
  ↔ x ∈ usage_of s c m' ∨ (m = m' ∧ x ∈ omap self_attr l).
Proof.
  revert s. induction l as [|n l IH]; intros s; simpl.
  - split; [by left|]. intros [?|[_ H]]; [done|]. by apply elem_of_nil in H.
  - rewrite IH, usage_of_analyze_node.
    destruct (self_attr n) as [attr|] eqn:Hn.
    + rewrite elem_of_cons. split.
      * intros [[?|[-> [= ->]]]|[-> ?]]; [by left | right; by split; [|left] |].
        right. split; [done | by right].
      * intros [?|[-> [-> | ?]]]; [by left; left | by left; right | by right].
    + split.
      * intros [[?|[_ [=]]]|?]; [by left | by right].
      * intros [?|?]; [by left; left | by right].
Qed.

Lemma usage_of_analyze_method c m m' node s x :
  x ∈ usage_of (analyze_method c m node s) c m'
  ↔ x ∈ usage_of s c m' ∨ (m = m' ∧ x ∈ self_attrs node).
Proof.
  unfold analyze_method, self_attrs. rewrite usage_of_analyze_nodes.
  assert (x ∈ omap self_attr (walk node) ↔ x ∈ omap self_attr (subtree node)) as ->;
    [|done].
  rewrite !list_elem_of_omap. by setoid_rewrite (walk_subtree node).
Qed.

Lemma usage_of_visit_items c m body s x :
  x ∈ usage_of (visit_items c body s) c m
  ↔ x ∈ usage_of s c m
    ∨ Exists (touches m x) (List.filter is_FunctionDef body).
Proof.
  unfold visit_items. revert s. induction body as [|item l IH]; intros s; simpl.
  - rewrite Exists_nil. tauto.
  - rewrite IH. destruct item as [| |name fs| |]; simpl; try tauto.
    rewrite usage_of_analyze_method, Exists_cons. unfold touches at 1. simpl.
    assert (usage_of
              (set_methods_per_class (λ mp, dd_append mp c name)
                 (set_classes (alter (add_method name) c) s)) c m
            = usage_of s c m) as -> by done.
    split.
    + intros [[?|[-> ?]]|?]; [by left | right; by left | right; by right].
    + intros [?|[[[= ->] ?]|?]]; [by left; left | by left; right | by right].
Qed.

Lemma store_inheritance_usage c bs s :
  method_attribute_usage (store_inheritance c bs s) = method_attribute_usage s.
Proof.
  unfold store_inheritance. revert s.
  induction bs as [|b l IH]; intros s; simpl; [done|]. rewrite IH. by destruct b.
Qed.

Lemma usage_of_enter_class c m name bs bd s x :
  x ∈ usage_of (enter_class name bs bd s) c m
  ↔ x ∈ usage_of s c m
    ∨ Exists (touches m x) (own_methods c (ClassDef name bs [] bd [])).
Proof.
  simpl. destruct (decide (name = c)) as [->|Hne].
  - unfold enter_class. rewrite usage_of_visit_items.
    assert (usage_of (store_inheritance c bs (register_class c bs bd s)) c m
            = usage_of s c m) as ->; [|done].
    unfold usage_of. by rewrite store_inheritance_usage.
  - rewrite (usage_of_agree c m s); [|by apply enter_class_agree].
    rewrite Exists_nil. tauto.
Qed.

Lemma usage_of_visit_all c m x l :
  Forall (λ t, ∀ s, x ∈ usage_of (visit t s) c m
                    ↔ x ∈ usage_of s c m ∨ Exists (touches m x) (methods_of c t)) l →
  ∀ s, x ∈ usage_of (visit_all l s) c m
       ↔ x ∈ usage_of s c m ∨ Exists (touches m x) (l ≫= methods_of c).
Proof.
  induction 1 as [|t r Ht _ IH]; intros s.
  - change (@nil node ≫= methods_of c) with (@nil node). rewrite Exists_nil. tauto.
  - rewrite visit_all_cons, IH, Ht.
    change ((t :: r) ≫= methods_of c) with (methods_of c t ++ (r ≫= methods_of c)).
    rewrite Exists_app. tauto.
Qed.

(** The attribute set recorded under a method name pools the attributes
    touched through [self] by every method of [c] that bears the name. *)
Lemma usage_of_visit c m x t s :
  x ∈ usage_of (visit t s) c m
  ↔ x ∈ usage_of s c m ∨ Exists (touches m x) (methods_of c t).
Proof.
  revert s. induction t as [n IH] using node_children_ind. intros s.
  rewrite methods_of_unfold, Exists_app.
  destruct n as [id|v attr|name fs|name bs ks bd ds|kind fs];
    try (rewrite visit_generic by done; rewrite (usage_of_visit_all c m x _ IH);
         simpl own_methods; rewrite Exists_nil; tauto).
  rewrite visit_ClassDef.
  assert (∀ s0, usage_of (set_current_class None s0) c m = usage_of s0 c m)
    as -> by done.
  rewrite (usage_of_visit_all c m x _ IH), usage_of_enter_class.
  simpl own_methods. tauto.
Qed.

Lemma usage_of_analyze c m x tree :
  x ∈ usage_of (analyze tree) c m ↔ Exists (touches m x) (methods_of c tree).
Proof.
  unfold analyze. rewrite usage_of_visit.
  assert (usage_of init c m = ∅) as -> by done.
  rewrite elem_of_empty. tauto.
Qed.

(** ** Metric calls and the state *)

Lemma defaults_added_refl {V} (d : V) m : defaults_added d m m.
Proof. intros k. by left. Qed.

Lemma defaults_added_trans {V} (d : V) m1 m2 m3 :
  defaults_added d m1 m2 → defaults_added d m2 m3 → defaults_added d m1 m3.
Proof.
  intros H12 H23 k. destruct (H12 k) as [H|[H1 H2]], (H23 k) as [H'|[H1' H2']].
  - left. congruence.
  - right. split; congruence.
  - right. split; congruence.
  - congruence.
Qed.

Lemma defaults_added_touch {V} (d : V) m k : defaults_added d m (touch d m k).
Proof.
  intros k'. unfold touch. destruct (m !! k) eqn:Hk; [by left|].
  destruct (decide (k = k')) as [<-|Hne].
  - right. by rewrite lookup_insert_eq.
  - left. by rewrite lookup_insert_ne.
Qed.

Lemma defaults_added_getitem {V} (d : V) m m' k :
  defaults_added d m m' → getitem_default d m' k = getitem_default d m k.
Proof.
  intros H. unfold getitem_default. destruct (H k) as [->|[-> ->]]; done.
Qed.

Lemma same_but_defaults_refl s : same_but_defaults s s.
Proof. repeat split; apply defaults_added_refl. Qed.

Lemma same_but_defaults_trans s1 s2 s3 :
  same_but_defaults s1 s2 → same_but_defaults s2 s3 → same_but_defaults s1 s3.
Proof.
  intros (?&?&?&?&?&?&?) (?&?&?&?&?&?&?).
  split_and!; try congruence; by eapply defaults_added_trans.
Qed.

Lemma calculate_cbo_state c s : same_but_defaults s (calculate_cbo c s).2.
Proof.
  split_and!; try done; try apply defaults_added_refl.
  apply defaults_added_touch.
Qed.

Lemma calculate_lcom_state c s : same_but_defaults s (calculate_lcom c s).2.
Proof.
  unfold calculate_lcom. case_bool_decide; simpl.
  - split_and!; try done; try apply defaults_added_refl. apply defaults_added_touch.
  - split_and!; try done; try apply defaults_added_refl; apply defaults_added_touch.
Qed.

Lemma run_call_state call s : same_but_defaults s (run_call s call).
Proof.
  destruct call; simpl;
    [apply same_but_defaults_refl | apply calculate_cbo_state | apply calculate_lcom_state].
Qed.

Lemma run_calls_state calls s : same_but_defaults s (run_calls calls s).
Proof.
  unfold run_calls. revert s.
  induction calls as [|call calls IH]; intros s; simpl; [apply same_but_defaults_refl|].
  eapply same_but_defaults_trans; [apply run_call_state | apply IH].
Qed.

Lemma call_value_same call s s' :
  same_but_defaults s s' → call_value call s' = call_value call s.
Proof.
  intros (_ & _ & Htree & Hcpl & Hmeth & _ & Huse). destruct call as [fuel c|c|c]; simpl.
  - unfold calculate_dit. by rewrite Htree.
  - by rewrite (defaults_added_getitem _ _ _ c Hcpl).
  - unfold calculate_lcom. simpl.
    rewrite (defaults_added_getitem _ _ _ c Hmeth),
      (defaults_added_getitem _ _ _ c Huse). by case_bool_decide.
Qed.

(** C9, as stated, fails: on a class without coupling entry or methods,
    [calculate_cbo] and [calculate_lcom] each leave a new key behind. *)
Lemma metric_calls_add_keys :
  coupling (analyze unit_person_student) !! "Person" = None ∧
  coupling (calculate_cbo "Person" (analyze unit_person_student)).2 !! "Person"
    = Some ∅ ∧
  (calculate_cbo "Person" (analyze unit_person_student)).2
    ≠ analyze unit_person_student ∧
  methods_per_class (analyze unit_person_student) !! "Person" = None ∧
  methods_per_class (calculate_lcom "Person" (analyze unit_person_student)).2 !! "Person"
    = Some [] ∧
  (calculate_lcom "Person" (analyze unit_person_student)).2
    ≠ analyze unit_person_student.
Proof.
  split_and!; try reflexivity.
  - intros H. apply (f_equal (λ s, coupling s !! "Person")) in H. discriminate H.
  - intros H. apply (f_equal (λ s, methods_per_class s !! "Person")) in H.
    discriminate H.
Qed.

(** C9, amended.  [calculate_dit] only reads.  [calculate_cbo] and
    [calculate_lcom] leave the classes, the inheritance tree and every
    existing entry of the four [defaultdict]s as they are; what they may do
    is store the empty default under the queried class name where there was
    no entry: in the coupling map for CBO, in the method lists and (for a
    class with more than one method) the attribute-usage map for LCOM.
    After any sequence of metric calls every metric call returns what it
    would have returned before. *)
Theorem metric_calls_only_add_defaults (s : analyzer) (c : string) :
  (calculate_cbo c s).2 = set_coupling (λ m, touch ∅ m c) s ∧
  (is_Some (coupling s !! c) → (calculate_cbo c s).2 = s) ∧
  (is_Some (methods_per_class s !! c) → is_Some (method_attribute_usage s !! c) →
   (calculate_lcom c s).2 = s) ∧
  (∀ calls, same_but_defaults s (run_calls calls s)) ∧
  (∀ calls call, call_value call (run_calls calls s) = call_value call s).
Proof.
  split_and!.
  - reflexivity.
  - intros [v Hv]. unfold calculate_cbo, set_coupling, touch. cbn [snd].
    rewrite Hv. by destruct s.
  - intros [v Hv] [w Hw].
    unfold calculate_lcom, set_methods_per_class, set_method_attribute_usage, touch.
    case_bool_decide; cbn [snd method_attribute_usage methods_per_class];
      rewrite ?Hv, ?Hw; by destruct s.
  - intros calls. apply run_calls_state.
  - intros calls call. apply call_value_same, run_calls_state.
Qed.

Lemma metric_calls_only_add_defaults_witness :
  (calculate_cbo "Student" (analyze unit_repeated_mentions)).2
    = analyze unit_repeated_mentions ∧
  (calculate_lcom "Student" (analyze unit_two_methods)).2
    = analyze unit_two_methods ∧
  call_value (Lcom "Student")
    (run_calls [Cbo "Person"; Lcom "Person"; Dit 3 "Student"] (analyze unit_two_methods))
    = Some 1%Z.
Proof.
  split_and!.
  - destruct (metric_calls_only_add_defaults (analyze unit_repeated_mentions) "Student")
      as (_ & H & _).
    apply H. vm_compute. by eexists.
  - destruct (metric_calls_only_add_defaults (analyze unit_two_methods) "Student")
      as (_ & _ & H & _).
    apply H; vm_compute; by eexists.
  - destruct (metric_calls_only_add_defaults (analyze unit_two_methods) "Student")
      as (_ & _ & _ & _ & H).
    rewrite H. reflexivity.
Defined.

(** * Further properties of the analyzer *)

(** ** Depth along a parent link *)

Lemma dit_loop_shift fuel tree depth k c :
  dit_loop fuel tree (depth + k) c = (λ r, r + k) <$> dit_loop fuel tree depth c.
Proof.
  revert depth c. induction fuel as [|fuel IH]; intros depth c; simpl; [done|].
  destruct (tree !! c) as [p|]; [|done].
  replace (depth + k + 1) with (depth + 1 + k) by lia. apply IH.
Qed.

(** X1.  A class with a recorded parent is one level deeper than the
    parent: with one more loop test [calculate_dit] returns the parent's
    depth plus one, and it is still running exactly when the parent's call
    is. *)
Theorem calculate_dit_parent (s : analyzer) (c p : string) (fuel : nat) :
  inheritance_tree s !! c = Some p →
  calculate_dit (S fuel) c s = S <$> calculate_dit fuel p s.
Proof.
  intros Hc. unfold calculate_dit. simpl. rewrite Hc.
  change 1 with (0 + 1) at 1.
  rewrite (dit_loop_shift fuel (inheritance_tree s) 0 1 p).
  destruct (dit_loop fuel (inheritance_tree s) 0 p); simpl; [f_equal; lia | done].
Qed.

Lemma calculate_dit_parent_witness :
  calculate_dit 3 "C" (analyze unit_two_bases)
  = S <$> calculate_dit 2 "B" (analyze unit_two_bases).
Proof.
  apply (calculate_dit_parent (analyze unit_two_bases) "C" "B" 2). reflexivity.
Defined.

(** ** Bounds on coupling *)

Lemma coupled_with_known tree c :
  coupled_with (analyze tree) c ⊆ list_to_set known_classes ∖ {[c]}.
Proof.
  intros x Hx. apply coupled_with_analyze in Hx as (_ & Hk & Hne).
  apply elem_of_difference. split; [by apply elem_of_list_to_set|].
  by rewrite elem_of_singleton.
Qed.

(** X2.  Whatever the unit, [calculate_cbo] is at most 5, and at most 4
    for a class that bears one of the five hard-coded names: only those
    names are ever put in a coupling set, and never the class's own. *)
Theorem calculate_cbo_bound (tree : node) (c : string) :
  (calculate_cbo c (analyze tree)).1 ≤ 5 ∧
  (c ∈ known_classes → (calculate_cbo c (analyze tree)).1 ≤ 4).
Proof.
  assert (Hfive : size (list_to_set known_classes : gset string) = 5).
  { rewrite size_list_to_set; [done|]. unfold known_classes.
    repeat (apply NoDup_cons; split;
            [rewrite ?elem_of_cons, elem_of_nil; intros H; intuition discriminate|]).
    apply NoDup_nil_2. }
  pose proof (subseteq_size _ _ (coupled_with_known tree c)) as Hle.
  unfold calculate_cbo. simpl. fold (coupled_with (analyze tree) c). split.
  - etrans; [exact Hle|]. rewrite <- Hfive. apply subseteq_size.
    intros x Hx. by apply elem_of_difference in Hx as [? _].
  - intros Hc. etrans; [exact Hle|].
    rewrite size_difference; [|by apply singleton_subseteq_l, elem_of_list_to_set].
    rewrite Hfive, size_singleton. lia.
Qed.

Lemma calculate_cbo_bound_witness :
  (calculate_cbo "Student" (analyze unit_repeated_mentions)).1 ≤ 4.
Proof.
  apply (calculate_cbo_bound unit_repeated_mentions "Student").
  unfold known_classes. rewrite !elem_of_cons. tauto.
Defined.

(** ** Bounds on the lack of cohesion *)

Lemma calculate_lcom_value s c :
  (calculate_lcom c s).1
  = lcom_spec (getitem_default ∅ (method_attribute_usage s) c)
              (getitem_default [] (methods_per_class s) c).
Proof.
  set (methods := getitem_default [] (methods_per_class s) c).
  set (method_attrs := getitem_default ∅ (method_attribute_usage s) c).
  unfold calculate_lcom. fold methods. case_bool_decide as Hlen; simpl.
  - unfold lcom_spec.
    pose proof (filter_length_split (shares method_attrs methods)
                  (position_pairs (length methods))) as Hsplit.
    pose proof (length_position_pairs (length methods)) as Htotal.
    unfold lcom_P_spec, lcom_Q_spec.
    assert (length methods * (length methods - 1) = 0)
      by (destruct (length methods) as [|[|?]]; lia).
    lia.
  - fold method_attrs. by rewrite lcom_loops_spec.
Qed.

Lemma lcom_spec_bounds method_attrs methods :
  (0 ≤ lcom_spec method_attrs methods)%Z ∧
  (2 * lcom_spec method_attrs methods
   ≤ Z.of_nat (length methods * (length methods - 1)))%Z.
Proof.
  unfold lcom_spec, lcom_P_spec, lcom_Q_spec.
  pose proof (filter_length_split (shares method_attrs methods)
                (position_pairs (length methods))) as Hsplit.
  pose proof (length_position_pairs (length methods)) as Htotal.
  lia.
Qed.

Lemma low_cohesion_listed cbo lcom methods :
  "Low cohesion" ∈ issues cbo lcom methods ↔ (5 < lcom)%Z.
Proof.
  unfold issues; split_tests; cbn; rewrite ?elem_of_cons, ?elem_of_nil; flag_iff.
Qed.

(** X3.  [calculate_lcom] is never negative and never above the number
    [n(n-1)/2] of pairs of the class's [n] listed methods.  So a class with
    at most three methods is never reported with "Low cohesion". *)
Theorem calculate_lcom_bound (s : analyzer) (c : string) :
  (0 ≤ (calculate_lcom c s).1)%Z ∧
  (2 * (calculate_lcom c s).1
   ≤ Z.of_nat (length (methods_list s c) * (length (methods_list s c) - 1)))%Z ∧
  (length (methods_list s c) ≤ 3 →
   ∀ cbo, "Low cohesion" ∉ issues cbo (calculate_lcom c s).1 (length (methods_list s c))).
Proof.
  rewrite calculate_lcom_value. unfold methods_list.
  destruct (lcom_spec_bounds (getitem_default ∅ (method_attribute_usage s) c)
              (getitem_default [] (methods_per_class s) c)) as [Hlo Hhi].
  split_and!; [done | done |].
  intros Hn cbo. rewrite low_cohesion_listed.
  assert (length (getitem_default [] (methods_per_class s) c)
          * (length (getitem_default [] (methods_per_class s) c) - 1) ≤ 6) by nia.
  lia.
Qed.

Lemma calculate_lcom_bound_witness :
  "Low cohesion" ∉ issues 0 (calculate_lcom "Student" (analyze unit_two_methods)).1
                     (length (methods_list (analyze unit_two_methods) "Student")).
Proof.
  destruct (calculate_lcom_bound (analyze unit_two_methods) "Student") as (_ & _ & H).
  apply H. vm_compute. lia.
Defined.

Lemma filter_none {A} (f : A → bool) (l : list A) :
  (∀ x, x ∈ l → f x = false) → List.filter f l = [].
Proof.
  induction l as [|x l IH]; intros H; simpl; [done|].
  rewrite (H x) by left. apply IH. intros y Hy. apply H. by right.
Qed.

Lemma filter_all {A} (f : A → bool) (l : list A) :
  (∀ x, x ∈ l → f x = true) → List.filter f l = l.
Proof.
  induction l as [|x l IH]; intros H; simpl; [done|].
  rewrite (H x) by left. f_equal. apply IH. intros y Hy. apply H. by right.
Qed.

(** X4.  The two ends of the scale.  If no two listed methods of the
    class have an attribute in common, [calculate_lcom] returns the number
    of all pairs, [n(n-1)/2]; if some attribute is in the recorded set of
    every listed method, it returns 0. *)
Theorem calculate_lcom_extremes (s : analyzer) (c : string) :
  ((∀ i j m1 m2, i < j → methods_list s c !! i = Some m1 →
                 methods_list s c !! j = Some m2 →
                 usage_of s c m1 ∩ usage_of s c m2 = ∅) →
   (2 * (calculate_lcom c s).1
    = Z.of_nat (length (methods_list s c) * (length (methods_list s c) - 1)))%Z) ∧
  (∀ x, (∀ m, m ∈ methods_list s c → x ∈ usage_of s c m) →
        (calculate_lcom c s).1 = 0%Z).
Proof.
  rewrite calculate_lcom_value. unfold methods_list, usage_of.
  set (methods := getitem_default [] (methods_per_class s) c).
  set (method_attrs := getitem_default ∅ (method_attribute_usage s) c).
  pose proof (filter_length_split (shares method_attrs methods)
                (position_pairs (length methods))) as Hsplit.
  pose proof (length_position_pairs (length methods)) as Htotal.
  unfold lcom_spec, lcom_P_spec, lcom_Q_spec. split.
  - intros Hdisjoint.
    assert (List.filter (shares method_attrs methods)
              (position_pairs (length methods)) = []) as Hnone;
      [|rewrite Hnone in *; simpl in *; lia].
    apply filter_none. intros [i j] Hij. apply elem_of_position_pairs in Hij. unfold shares. simpl.
    destruct (methods !! i) as [m1|] eqn:Hi; [|done].
    destruct (methods !! j) as [m2|] eqn:Hj; [|done].
    apply bool_decide_eq_false_2. intros Hne. apply Hne.
    apply (Hdisjoint i j); [lia | done | done].
  - intros x Hcommon.
    assert (List.filter (shares method_attrs methods)
              (position_pairs (length methods))
            = position_pairs (length methods)) as Hall;
      [|rewrite Hall in *; lia].
    apply filter_all. intros [i j] Hij. apply elem_of_position_pairs in Hij. unfold shares. simpl.
    destruct (lookup_lt_is_Some_2 methods i) as [m1 Hi]; [lia|].
    destruct (lookup_lt_is_Some_2 methods j) as [m2 Hj]; [lia|].
    rewrite Hi, Hj. apply bool_decide_eq_true_2.
    assert (x ∈ attrs_of method_attrs m1 ∩ attrs_of method_attrs m2) as Hx.
    { apply elem_of_intersection.
      split; apply Hcommon; by eapply list_elem_of_lookup_2. }
    intros Hempty. rewrite Hempty in Hx. by apply elem_of_empty in Hx.
Qed.

Lemma calculate_lcom_extremes_witness :
  (2 * (calculate_lcom "Student" (analyze unit_two_methods)).1 = 2)%Z.
Proof.
  destruct (calculate_lcom_extremes (analyze unit_two_methods) "Student") as (H & _).
  rewrite H; [reflexivity|].
  intros i j m1 m2 Hij Hi Hj.
  change (methods_list (analyze unit_two_methods) "Student")
    with ["register_course"; "add_grade"] in Hi, Hj.
  destruct i as [|[|i]], j as [|[|j]]; try lia; try discriminate Hj.
  injection Hi as <-. injection Hj as <-. vm_compute. reflexivity.
Defined.

(** ** The order of the methods *)

Lemma foldl_imap_ext {A B C} (f f' : A → C → A) (g g' : nat → B → C) l a :
  (∀ a i y, f a (g i y) = f' a (g' i y)) →
  foldl f a (imap g l) = foldl f' a (imap g' l).
Proof.
  revert g g' a. induction l as [|y l IH]; intros g g' a H; simpl; [done|].
  rewrite H. apply IH. intros a' i y'. apply H.
Qed.

Lemma lcom_outer_cons method_attrs x r pq :
  foldl (λ pq im, foldl (lcom_pair method_attrs im.2) pq (drop (im.1 + 1) (x :: r)))
    pq (enumerate (x :: r))
  = foldl (λ pq im, foldl (lcom_pair method_attrs im.2) pq (drop (im.1 + 1) r))
      (foldl (lcom_pair method_attrs x) pq r) (enumerate r).
Proof.
  unfold enumerate. simpl. apply foldl_imap_ext.
  intros a i y. simpl. by rewrite Nat.add_1_r.
Qed.

Lemma lcom_inner_count method_attrs x r p q :
  foldl (lcom_pair method_attrs x) (p, q) r
  = ((p + Z.of_nat (length (List.filter
        (λ m', bool_decide (share_attrs method_attrs x m' = false)) r)))%Z,
     (q + Z.of_nat (length (List.filter
        (λ m', bool_decide (share_attrs method_attrs x m' = true)) r)))%Z).
Proof.
  revert p q. induction r as [|y r IH]; intros p q; simpl.
  - f_equal; lia.
  - unfold lcom_pair at 2. fold (attrs_of method_attrs x) (attrs_of method_attrs y).
    fold (share_attrs method_attrs x y).
    destruct (share_attrs method_attrs x y); simpl; rewrite IH; f_equal; lia.
Qed.

Lemma lcom_loops_pairs_after method_attrs methods :
  lcom_loops method_attrs methods
  = (Z.of_nat (pairs_after method_attrs false methods),
     Z.of_nat (pairs_after method_attrs true methods)).
Proof.
  unfold lcom_loops.
  assert (∀ p q,
    foldl (λ pq im, foldl (lcom_pair method_attrs im.2) pq (drop (im.1 + 1) methods))
      (p, q) (enumerate methods)
    = ((p + Z.of_nat (pairs_after method_attrs false methods))%Z,
       (q + Z.of_nat (pairs_after method_attrs true methods))%Z)) as H.
  { induction methods as [|x r IH]; intros p q.
    - simpl. f_equal; lia.
    - rewrite lcom_outer_cons, lcom_inner_count, IH. simpl. f_equal; lia. }
  rewrite H. f_equal; lia.
Qed.

Lemma share_attrs_comm method_attrs m1 m2 :
  share_attrs method_attrs m1 m2 = share_attrs method_attrs m2 m1.
Proof. unfold share_attrs. by rewrite (comm_L (∩)). Qed.

Lemma pairs_after_Permutation method_attrs b l l' :
  l ≡ₚ l' → pairs_after method_attrs b l = pairs_after method_attrs b l'.
Proof.
  induction 1 as [|x l l' Hl IH|x y l|l1 l2 l3 _ IH1 _ IH2]; simpl.
  - done.
  - by rewrite IH, (filter_length_Permutation _ _ _ Hl).
  - rewrite (share_attrs_comm method_attrs x y).
    destruct (bool_decide (share_attrs method_attrs y x = b)); simpl; lia.
  - by rewrite IH1.
Qed.

Lemma filter_ext_elem_of {A} (f g : A → bool) (l : list A) :
  (∀ x, x ∈ l → f x = g x) → List.filter f l = List.filter g l.
Proof.
  induction l as [|x l IH]; intros H; simpl; [done|].
  rewrite (H x) by left. rewrite IH; [done|]. intros y Hy. apply H. by right.
Qed.

Lemma pairs_after_ext method_attrs method_attrs' b l :
  (∀ m, m ∈ l → attrs_of method_attrs m = attrs_of method_attrs' m) →
  pairs_after method_attrs b l = pairs_after method_attrs' b l.
Proof.
  induction l as [|x l IH]; intros H; simpl; [done|].
  rewrite IH by (intros m Hm; apply H; by right). f_equal. f_equal.
  apply filter_ext_elem_of. intros y Hy. unfold share_attrs.
  by rewrite (H x), (H y) by (by left || by right).
Qed.

(** X5.  [calculate_lcom] does not depend on the order of the class's
    method list: two states that list the same methods for the class, in
    any order, and record the same attribute set for each of them give the
    same value. *)
Theorem calculate_lcom_order (s s' : analyzer) (c : string) :
  methods_list s c ≡ₚ methods_list s' c →
  (∀ m, m ∈ methods_list s c → usage_of s c m = usage_of s' c m) →
  (calculate_lcom c s).1 = (calculate_lcom c s').1.
Proof.
  unfold methods_list, usage_of. intros Hperm Hattrs. unfold calculate_lcom. simpl.
  rewrite !lcom_loops_pairs_after, (Permutation_length Hperm).
  case_bool_decide; [done|]. simpl.
  rewrite !(pairs_after_ext _ _ _ _ Hattrs).
  by rewrite !(pairs_after_Permutation _ _ _ _ Hperm).
Qed.

Lemma calculate_lcom_order_witness :
  (calculate_lcom "Student" (analyze unit_two_methods)).1
  = (calculate_lcom "Student" (analyze unit_two_methods_swapped)).1.
Proof.
  apply calculate_lcom_order.
  - change (methods_list (analyze unit_two_methods) "Student")
      with ["register_course"; "add_grade"].
    change (methods_list (analyze unit_two_methods_swapped) "Student")
      with ["add_grade"; "register_course"].
    apply perm_swap.
  - change (methods_list (analyze unit_two_methods) "Student")
      with ["register_course"; "add_grade"].
    intros m Hm. rewrite !elem_of_cons, elem_of_nil in Hm.
    destruct Hm as [-> | [-> | []]]; reflexivity.
Defined.

(** ** What the build phase registers *)

(** X6.  After an analysis a name is a key of [self.classes] exactly when
    some class definition of the tree bears it, at whatever depth:
    definitions nested in a class body or in a function are registered
    like those at the top. *)
Theorem registered_iff_defined (tree : node) (c : string) :
  is_Some (classes (analyze tree) !! c) ↔ c ∈ class_names tree.
Proof.
  split.
  - intros Hreg. destruct (decide (c ∈ class_names tree)) as [|Hc]; [done|].
    destruct (visit_agree c tree init Hc) as (Hcl & _).
    unfold analyze in Hreg. rewrite Hcl in Hreg. by destruct Hreg.
  - apply visit_registers.
Qed.

Lemma visit_items_entry c body s :
  classes (visit_items c body s) !! c
  = (λ ci, ClassInfo (methods ci ++ omap function_name body) (attributes ci)
             (base_classes ci) (lines ci)) <$> classes s !! c.
Proof.
  unfold visit_items. revert s. induction body as [|item l IH]; intros s; simpl.
  - destruct (classes s !! c) as [[ms at_ bc ln]|]; simpl; [|done].
    by rewrite app_nil_r.
  - rewrite IH. destruct item as [| |name fs| |]; try done. simpl.
    rewrite analyze_method_classes. simpl. rewrite lookup_alter_eq.
    destruct (classes s !! c) as [[ms at_ bc ln]|]; simpl; [|done].
    by rewrite <- (assoc_L (++)).
Qed.

(** X7.  The registry entry a class definition leaves: the names of the
    function definitions of its body in order as [methods], every base in
    [base_classes], the number of statements of the body as [lines], and
    an empty [attributes] set.  An earlier entry under the name is
    replaced.  (For a definition that contains no definition of the same
    name.) *)
Theorem visit_ClassDef_entry
    (name : string) (bs ks bd ds : list node) (s : analyzer) :
  name ∉ class_names_forest (bs ++ ks ++ bd ++ ds) →
  classes (visit (ClassDef name bs ks bd ds) s) !! name
  = Some {| methods := omap function_name bd; attributes := ∅;
            base_classes := base_id <$> bs; lines := length bd |}.
Proof.
  intros Hnested. rewrite visit_ClassDef. simpl classes.
  destruct (visit_all_agree name (bs ++ ks ++ bd ++ ds)) with
    (s := enter_class name bs bd s) as (-> & _); [|done|].
  { apply Forall_forall. intros t _ s'. apply visit_agree. }
  unfold enter_class. rewrite visit_items_entry, store_inheritance_classes.
  simpl. by rewrite lookup_insert_eq.
Qed.

Lemma visit_ClassDef_entry_witness :
  classes (visit (ClassDef "Shape" [] []
                    [ FunctionDef "name"
                        [Other "arguments" []; Attribute (Name "self") "label"];
                      pass_stmt ] [])
             (analyze unit_redefined)) !! "Shape"
  = Some {| methods := ["name"]; attributes := ∅; base_classes := [];
            lines := 2 |}.
Proof.
  apply (visit_ClassDef_entry "Shape" [] []
           [ FunctionDef "name" [Other "arguments" []; Attribute (Name "self") "label"];
             pass_stmt ] [] (analyze unit_redefined)).
  vm_compute. intros H. by apply elem_of_nil in H.
Defined.

(** X8.  The method list the metrics use grows with every visit by the
    names of the function definitions found directly in the bodies of the
    definitions of the class, in visiting order; nothing is ever removed,
    so a class defined twice is listed with the methods of both
    definitions and a method name defined twice is listed twice. *)
Theorem methods_per_class_accumulates (t : node) (s : analyzer) (c : string) :
  methods_list (visit t s) c
  = methods_list s c ++ omap function_name (methods_of c t).
Proof. apply methods_list_visit. Qed.

(** X9.  The attribute set recorded for a method name of a class holds
    exactly the attributes reached through [self] anywhere inside a method
    of the class that bears the name; methods of one name share one set. *)
Theorem method_attribute_usage_pools (tree : node) (c m x : string) :
  x ∈ usage_of (analyze tree) c m
  ↔ ∃ method, method ∈ methods_of c tree ∧
              function_name method = Some m ∧ x ∈ self_attrs method.
Proof.
  rewrite usage_of_analyze, Exists_exists. unfold touches. naive_solver.
Qed.

Lemma attributes_of_agree c s s' :
  agree_at c s s' → attributes_of s' c = attributes_of s c.
Proof.
  intros (_ & _ & _ & _ & H & _). unfold attributes_of, getitem_default. by rewrite H.
Qed.

Lemma record_attribute_covered c m attr s :
  attributes_covered s → attributes_covered (record_attribute c m attr s).
Proof.
  intros Hs c' x. destruct (decide (c' = c)) as [->|Hne].
  - setoid_rewrite usage_of_record_attribute.
    assert (x ∈ attributes_of (record_attribute c m attr s) c
            ↔ x ∈ attributes_of s c ∨ x = attr) as ->.
    { unfold attributes_of, record_attribute, dd_add. simpl.
      unfold getitem_default at 1. rewrite lookup_insert_eq. simpl.
      rewrite elem_of_union, elem_of_singleton. done. }
    rewrite (Hs c x). split.
    + intros [[m' ?]| ->]; [exists m'; by left | exists m; by right].
    + intros [m' [?|[_ ->]]]; [left; by exists m' | by right].
  - rewrite (attributes_of_agree c' s); [|by apply record_attribute_agree].
    rewrite (Hs c' x). split; intros [m' Hm']; exists m'.
    + by rewrite (usage_of_agree c' m' s); [|apply record_attribute_agree].
    + by rewrite (usage_of_agree c' m' s) in Hm'; [|apply record_attribute_agree].
Qed.

Lemma analyze_node_covered c m s n :
  attributes_covered s → attributes_covered (analyze_node c m s n).
Proof.
  intros Hs. destruct n as [id|v attr| | |]; try done.
  - rewrite analyze_node_Name. by case_decide.
  - rewrite analyze_node_Attribute. destruct (is_self v); [|done].
    by apply record_attribute_covered.
Qed.

Lemma enter_class_covered name bs bd s :
  attributes_covered s → attributes_covered (enter_class name bs bd s).
Proof.
  intros Hs. unfold enter_class.
  assert (H1 : attributes_covered (store_inheritance name bs (register_class name bs bd s))).
  { unfold store_inheritance.
    assert (H0 : attributes_covered (register_class name bs bd s)) by done.
    revert H0. generalize (register_class name bs bd s). clear.
    induction bs as [|b l IH]; intros s0 H0; simpl; [done|].
    apply IH. by destruct b. }
  revert H1. generalize (store_inheritance name bs (register_class name bs bd s)).
  unfold visit_items. clear. induction bd as [|item l IH]; intros s0 H0; simpl; [done|].
  apply IH. destruct item as [| |m fs| |]; try done. simpl.
  unfold analyze_method.
  assert (H1 : attributes_covered
                 (set_methods_per_class (λ mp, dd_append mp name m)
                    (set_classes (alter (add_method m) name) s0))) by done.
  revert H1. generalize (set_methods_per_class (λ mp, dd_append mp name m)
                           (set_classes (alter (add_method m) name) s0)).
  generalize (walk (FunctionDef m fs)). clear.
  induction l as [|n l IH]; intros s1 H1; simpl; [done|].
  by apply IH, analyze_node_covered.
Qed.

(** X10.  The attribute set of a class, whose size is the Attributes
    column of the report, holds exactly the attributes recorded for some
    method name of the class, and every such method name is in the
    class's method list. *)
Theorem attributes_per_class_covers_methods (tree : node) (c x : string) :
  x ∈ attributes_of (analyze tree) c
  ↔ ∃ m, m ∈ methods_list (analyze tree) c ∧ x ∈ usage_of (analyze tree) c m.
Proof.
  assert (Hcov : attributes_covered (analyze tree)).
  { unfold analyze.
    apply (visit_preserves attributes_covered); [apply enter_class_covered | done |].
    intros c' x'. split; [intros H; by apply elem_of_empty in H|].
    intros [m H]. by apply elem_of_empty in H. }
  rewrite (Hcov c x). split.
  - intros [m Hm]. exists m. split; [|done].
    rewrite methods_list_analyze. apply usage_of_analyze in Hm.
    apply Exists_exists in Hm as (method & Hin & Hname & _).
    apply list_elem_of_omap. by exists method.
  - intros (m & _ & Hm). by exists m.
Qed.

(** X11.  No registry entry ever gets an attribute: the [attributes] set
    created with the entry stays empty through any analysis (the
    attributes found go to [attributes_per_class] only). *)
Theorem classes_attributes_stay_empty (tree : node) (c : string) (ci : class_info) :
  classes (analyze tree) !! c = Some ci → attributes ci = ∅.
Proof.
  revert c ci. unfold analyze.
  apply (visit_preserves
           (λ s, ∀ c ci, classes s !! c = Some ci → attributes ci = ∅));
    [|done|done].
  intros name bs bd s Hs c ci. unfold enter_class.
  destruct (decide (c = name)) as [->|Hne].
  - rewrite visit_items_entry, store_inheritance_classes. simpl.
    rewrite lookup_insert_eq. simpl. by intros [= <-].
  - destruct (enter_class_agree c name bs bd s Hne) as (Hcl & _).
    unfold enter_class in Hcl. rewrite Hcl. apply Hs.
Qed.

Lemma classes_attributes_stay_empty_witness :
  attributes {| methods := ["display_info"]; attributes := ∅;
                base_classes := []; lines := 1 |} = ∅.
Proof.
  apply (classes_attributes_stay_empty unit_two_methods "Person"). reflexivity.
Defined.

(** X12.  The parent recorded for a class after a visit is the last
    plain-name base of the last definition of the class, in visiting
    order, that has one; a definition without plain-name base does not
    clear the record, and without any such definition in the tree the
    record is what it was before. *)
Theorem inheritance_record_latest (t : node) (s : analyzer) (c : string) :
  inheritance_tree (visit t s) !! c
  = or_else (last (declared_bases c t)) (inheritance_tree s !! c).
Proof. apply visit_inheritance. Qed.

(** X13.  Visiting a tree changes nothing of what is recorded under a
    class name that no class definition of the tree bears: its registry
    entry, parent, coupling set, method list and attribute sets are what
    they were. *)
Theorem visit_leaves_other_classes (t : node) (s : analyzer) (k : string) :
  k ∉ class_names t → agree_at k s (visit t s).
Proof. apply visit_agree. Qed.

Lemma visit_leaves_other_classes_witness :
  agree_at "Person" (analyze unit_person_student)
    (visit unit_redefined (analyze unit_person_student)).
Proof.
  apply visit_leaves_other_classes.
  change (class_names unit_redefined) with ["Shape"; "Shape"].
  rewrite !elem_of_cons, elem_of_nil. intros H. intuition discriminate.
Defined.

(** ** The class table of the report *)

Lemma same_but_defaults_reads s0 s c :
  same_but_defaults s0 s →
  classes s = classes s0 ∧
  inheritance_tree s = inheritance_tree s0 ∧
  getitem_default ∅ (coupling s) c = getitem_default ∅ (coupling s0) c ∧
  getitem_default [] (methods_per_class s) c
    = getitem_default [] (methods_per_class s0) c ∧
  getitem_default ∅ (attributes_per_class s) c
    = getitem_default ∅ (attributes_per_class s0) c ∧
  getitem_default ∅ (method_attribute_usage s) c
    = getitem_default ∅ (method_attribute_usage s0) c.
Proof.
  intros (? & _ & ? & ? & ? & ? & ?).
  split_and!; try done; by apply defaults_added_getitem.
Qed.

Lemma touch_methods_state c s :
  same_but_defaults s (set_methods_per_class (λ m, touch [] m c) s).
Proof.
  split_and!; try done; try apply defaults_added_refl. apply defaults_added_touch.
Qed.

Lemma touch_attributes_state c s :
  same_but_defaults s (set_attributes_per_class (λ m, touch ∅ m c) s).
Proof.
  split_and!; try done; try apply defaults_added_refl. apply defaults_added_touch.
Qed.

Lemma row_of_same fuel s0 s c :
  same_but_defaults s0 s → row_of fuel s c = row_of fuel s0 c.
Proof.
  intros H. destruct (same_but_defaults_reads s0 s c H) as (_ & Ht & Hc & Hm & Ha & Hu).
  unfold row_of, calculate_dit, calculate_cbo, calculate_lcom. simpl.
  rewrite Ht, Hc, Hm, Ha, Hu. by case_bool_decide.
Qed.

Lemma report_row_row_of fuel c s :
  fst <$> report_row fuel c s = row_of fuel s c ∧
  (∀ r s', report_row fuel c s = Some (r, s') → same_but_defaults s s').
Proof.
  unfold report_row, row_of.
  destruct (calculate_dit fuel c s) as [dit|]; simpl; [|done].
  set (s1 := set_coupling (λ m, touch ∅ m c) s).
  assert (H1 : same_but_defaults s s1) by apply (calculate_cbo_state c s).
  pose proof (calculate_lcom_state c s1) as H2.
  pose proof (call_value_same (Lcom c) s s1 H1) as Hl. simpl in Hl.
  destruct (calculate_lcom c s1) as [lcom s2]. simpl in H2, Hl.
  injection Hl as ->.
  pose proof (same_but_defaults_trans _ _ _ H1 H2) as H12.
  pose proof (touch_methods_state c s2) as H3.
  pose proof (same_but_defaults_trans _ _ _ H12 H3) as H13.
  pose proof (touch_attributes_state c
                (set_methods_per_class (λ m, touch [] m c) s2)) as H4.
  pose proof (same_but_defaults_trans _ _ _ H13 H4) as H14.
  destruct (same_but_defaults_reads s s2 c H12) as (_ & _ & _ & Hm2 & Ha2 & _).
  simpl. split.
  - by rewrite Hm2, Ha2.
  - intros r s' [= _ <-]. exact H14.
Qed.

Lemma report_rows_row_of fuel names s0 s :
  same_but_defaults s0 s →
  fst <$> report_rows fuel names s
    = mapM (row_of fuel s0) (List.filter (registered s0) names) ∧
  (∀ rows s', report_rows fuel names s = Some (rows, s') → same_but_defaults s0 s').
Proof.
  revert s. induction names as [|c names IH]; intros s Hs.
  - simpl. split; [done|]. by intros rows s' [= _ <-].
  - simpl. unfold registered at 1.
    destruct (same_but_defaults_reads s0 s c Hs) as (-> & _).
    case_bool_decide as Hreg; [|by apply IH].
    destruct (report_row_row_of fuel c s) as [Hrow Hstate].
    rewrite (row_of_same fuel s0 s c Hs) in Hrow.
    change (mapM (row_of fuel s0) (c :: List.filter (registered s0) names))
      with (y ← row_of fuel s0 c;
            k ← mapM (row_of fuel s0) (List.filter (registered s0) names);
            Some (y :: k)).
    destruct (report_row fuel c s) as [[r s1]|]; simpl in Hrow; rewrite <- Hrow;
      simpl; [|done].
    destruct (IH s1) as [Hrows Hstates].
    { eapply same_but_defaults_trans; [exact Hs | by eapply Hstate]. }
    rewrite <- Hrows.
    destruct (report_rows fuel names s1) as [[rows s2]|]; simpl; [|done].
    split; [done|]. intros rows' s' [= _ <-]. by eapply Hstates.
Qed.

(** X14.  The class table of the report has one line for each of the five
    names Person, Student, Course, Lecturer, Registrar that is registered,
    in that order whatever the order of the definitions, and none for any
    other class.  Each line shows the metrics of the state the report
    started from: the entries the earlier lines left in the [defaultdict]s
    change no figure.  The state after the report differs from the one
    before by such empty entries only. *)
Theorem generate_report_rows (fuel : nat) (s : analyzer) :
  fst <$> generate_report fuel s
    = (λ rows, String.concat newline (report_lines rows))
        <$> mapM (row_of fuel s) (List.filter (registered s) reported_classes) ∧
  (∀ text s', generate_report fuel s = Some (text, s') → same_but_defaults s s').
Proof.
  unfold generate_report.
  destruct (report_rows_row_of fuel reported_classes s s (same_but_defaults_refl s))
    as [Hrows Hstate].
  rewrite <- Hrows.
  destruct (report_rows fuel reported_classes s) as [[rows s1]|]; simpl; [|done].
  split; [done|]. intros text s' [= _ <-]. by eapply Hstate.
Qed.

Lemma generate_report_rows_witness :
  same_but_defaults (analyze unit_two_methods)
    (default (analyze unit_two_methods)
       (snd <$> generate_report 3 (analyze unit_two_methods))).
Proof.
  destruct (generate_report_rows 3 (analyze unit_two_methods)) as [_ H].
  destruct (generate_report 3 (analyze unit_two_methods)) as [[text s']|] eqn:E.
  - simpl. by apply (H text).
  - apply same_but_defaults_refl.
Defined.

(** X15.  [generate_report] returns exactly when none of the five names
    of its table that are registered has a chain of parents that revisits
    a name; one more loop test than there are recorded parents is then
    enough for all its [calculate_dit] calls.  With such a class in the
    registry the report is never produced. *)
Theorem generate_report_returns_iff (s : analyzer) :
  ((∃ fuel, is_Some (generate_report fuel s))
   ↔ ∀ c, c ∈ reported_classes → is_Some (classes s !! c) →
          ¬ revisits (inheritance_tree s) c) ∧
  ((∃ fuel, is_Some (generate_report fuel s))
   → is_Some (generate_report (S (size (inheritance_tree s))) s)).
Proof.
  assert (Hsome : ∀ fuel, is_Some (generate_report fuel s)
            ↔ ∀ c, c ∈ reported_classes → is_Some (classes s !! c) →
                   is_Some (calculate_dit fuel c s)).
  { intros fuel. destruct (generate_report_rows fuel s) as [Hrows _].
    assert (is_Some (generate_report fuel s)
            ↔ is_Some (mapM (row_of fuel s)
                         (List.filter (registered s) reported_classes))) as ->.
    { by rewrite <- (fmap_is_Some fst), Hrows, fmap_is_Some. }
    rewrite mapM_is_Some, Forall_forall.
    generalize reported_classes. intros names. split.
    - intros H c Hc Hreg. specialize (H c). unfold compose, row_of in H.
      destruct (calculate_dit fuel c s); [by eexists|].
      destruct H as [? H]; [|done].
      apply list_elem_of_In, filter_In. split; [by apply list_elem_of_In|].
      by apply bool_decide_eq_true_2.
    - intros H c Hc. apply list_elem_of_In, filter_In in Hc as [Hc Hreg].
      apply list_elem_of_In in Hc. apply bool_decide_eq_true_1 in Hreg.
      unfold compose, row_of. destruct (H c Hc Hreg) as [d ->]. by eexists. }
  assert (Hacyclic : (∀ c, c ∈ reported_classes → is_Some (classes s !! c) →
                           ¬ revisits (inheritance_tree s) c) →
                     is_Some (generate_report (S (size (inheritance_tree s))) s)).
  { intros H. apply Hsome. intros c Hc Hreg. unfold calculate_dit.
    destruct (dit_loop (S (size (inheritance_tree s))) (inheritance_tree s) 0 c)
      eqn:E; [by eexists|].
    apply dit_loop_None_revisits in E. destruct (H c Hc Hreg E). }
  assert (Hreturns : (∃ fuel, is_Some (generate_report fuel s)) →
                     ∀ c, c ∈ reported_classes → is_Some (classes s !! c) →
                          ¬ revisits (inheritance_tree s) c).
  { intros [fuel H] c Hc Hreg Hrev. rewrite Hsome in H.
    destruct (H c Hc Hreg) as [d Hd]. unfold calculate_dit in Hd.
    by rewrite revisits_dit_loop in Hd. }
  split; [split|]; [exact Hreturns | eauto | eauto].
Qed.

Lemma generate_report_returns_iff_witness :
  is_Some (generate_report
             (S (size (inheritance_tree (analyze unit_person_student))))
             (analyze unit_person_student)).
Proof.
  destruct (generate_report_returns_iff (analyze unit_person_student)) as [_ H].
  apply H. exists 3. vm_compute. by eexists.
Defined.

(** X16.  The text of the Issues column tells which flags were raised:
    two metric vectors that give the same text give the same list of
    flags, and "OK" is the text of no flagged row. *)
Theorem issue_str_decodes (cbo : nat) (lcom : Z) (methods : nat)
    (cbo' : nat) (lcom' : Z) (methods' : nat) :
  issue_str (issues cbo lcom methods) = issue_str (issues cbo' lcom' methods') →
  issues cbo lcom methods = issues cbo' lcom' methods'.
Proof.
  unfold issues. split_tests; simpl; intros H; first [reflexivity | discriminate H].
Qed.

Lemma issue_str_decodes_witness : issues 4 6 2 = issues 9 7 0.
Proof. apply issue_str_decodes. reflexivity. Defined.

(** * The report text and the analysed unit *)

(** ** The complexity table in the text of the report *)

Lemma split_on_app sep s t :
  has_char sep s = false →
  split_on sep (s +:+ String sep t) = s :: split_on sep t.
Proof.
  induction s as [|a r IH]; intros Hs; simpl.
  - by rewrite Ascii.eqb_refl.
  - simpl in Hs. apply orb_false_iff in Hs as [Ha Hr].
    rewrite Ha, (IH Hr). done.
Qed.

Lemma concat_newline_cons x y l :
  String.concat newline (x :: y :: l)
  = x +:+ String newline_char (String.concat newline (y :: l)).
Proof. reflexivity. Qed.

(** The text starts with the lines joined first, as long as they hold no
    newline themselves. *)
Lemma split_concat_prefix l1 l2 :
  forallb (λ l, negb (has_char newline_char l)) l1 = true → l2 ≠ [] →
  ∃ rest, split_on newline_char (String.concat newline (l1 ++ l2)) = l1 ++ rest.
Proof.
  intros Hl1 Hl2. induction l1 as [|x l1 IH].
  - by eexists.
  - simpl in Hl1. apply andb_true_iff in Hl1 as [Hx Hl1].
    destruct (IH Hl1) as [rest Hrest].
    destruct (l1 ++ l2) as [|y l] eqn:E.
    { by destruct l1, l2. }
    change ((x :: l1) ++ l2) with (x :: (l1 ++ l2)). rewrite E.
    rewrite concat_newline_cons, split_on_app by (by apply negb_true_iff).
    rewrite Hrest. by exists rest.
Qed.

Lemma generate_report_text fuel s text s' :
  generate_report fuel s = Some (text, s') →
  ∃ rows, fst <$> report_rows fuel reported_classes s = Some rows ∧
          text = String.concat newline (report_lines rows).
Proof.
  unfold generate_report.
  destruct (report_rows fuel reported_classes s) as [[rows s1]|]; [|done].
  simpl. intros [= <- _]. by exists rows.
Qed.

Lemma generate_report_cc_table fuel s text s' :
  generate_report fuel s = Some (text, s') →
  report_section cc_title text
  = [ dashes;
      "Method/Function                              | CC  | Grade | Issues";
      dashes;
      "Student.calculate_performance                | 17  | C     | HIGH - Needs refactoring";
      "Student.register_course                      | 3   | A     | OK";
      "Registrar.full_report                        | 4   | A     | OK";
      "main()                                       | 1   | A     | OK (but long)" ].
Proof.
  intros H. apply generate_report_text in H as (rows & _ & ->).
  unfold report_section, report_lines.
  rewrite (assoc_L (++) report_title cc_section).
  destruct (split_concat_prefix (report_title ++ cc_section)
              (loc_section ++ oo_header ++ (format_row <$> rows) ++ [""] ++ problem_areas))
    as [rest ->]; [by vm_compute | done |].
  by vm_compute.
Qed.

(** C2, as stated, fails: for a [Student.calculate_performance] without
    any decision point the report that [generate_report] returns still
    shows a complexity of 17, not 1. *)
Lemma reported_cc_not_computed :
  decision_points trivial_calculate_performance = 0 ∧
  cyclomatic_complexity_spec trivial_calculate_performance = 1 ∧
  ∃ text s',
    generate_report 3 (analyze unit_trivial_performance) = Some (text, s') ∧
    reported_cc (report_section cc_title text) "Student.calculate_performance"
    = Some 17.
Proof.
  split_and!; [by vm_compute | by vm_compute |].
  assert (is_Some (generate_report 3 (analyze unit_trivial_performance)))
    as [[text s'] E] by (vm_compute; by eexists).
  exists text, s'. split; [done|].
  rewrite (generate_report_cc_table _ _ _ _ E). by vm_compute.
Qed.

(** C2, amended.  Whenever [generate_report] returns, the section of its
    text headed "1. CYCLOMATIC COMPLEXITY (CC)" is the same fixed table,
    whatever unit was analysed: read back from the text, it shows 17 for
    [Student.calculate_performance], 3 for [Student.register_course], 4
    for [Registrar.full_report] and 1 for [main()], and no figure for any
    other method; nothing is counted in a method body. *)
Theorem generate_report_cc_fixed
    (fuel : nat) (s : analyzer) (text : string) (s' : analyzer) (method : string) :
  generate_report fuel s = Some (text, s') →
  reported_cc (report_section cc_title text) method
  = if decide (method = "Student.calculate_performance") then Some 17
    else if decide (method = "Student.register_course") then Some 3
    else if decide (method = "Registrar.full_report") then Some 4
    else if decide (method = "main()") then Some 1
    else None.
Proof.
  intros H. rewrite (generate_report_cc_table _ _ _ _ H).
  unfold reported_cc.
  assert (cc_table
            [ dashes;
              "Method/Function                              | CC  | Grade | Issues";
              dashes;
              "Student.calculate_performance                | 17  | C     | HIGH - Needs refactoring";
              "Student.register_course                      | 3   | A     | OK";
              "Registrar.full_report                        | 4   | A     | OK";
              "main()                                       | 1   | A     | OK (but long)" ]
          = [ ("Method/Function", None);
              ("Student.calculate_performance", Some 17);
              ("Student.register_course", Some 3);
              ("Registrar.full_report", Some 4);
              ("main()", Some 1) ]) as -> by (by vm_compute).
  simpl. repeat (case_decide; simplify_eq; try done).
Qed.

Lemma generate_report_cc_fixed_witness :
  ∃ text s',
    generate_report 3 (analyze unit_person_student) = Some (text, s') ∧
    reported_cc (report_section cc_title text) "main()" = Some 1.
Proof.
  assert (is_Some (generate_report 3 (analyze unit_person_student)))
    as [[text s'] E] by (vm_compute; by eexists).
  exists text, s'. split; [exact E|].
  by rewrite (generate_report_cc_fixed 3 (analyze unit_person_student) text s' "main()" E).
Defined.

(** ** The flags in the class table *)







(** ** Cohesion in terms of the declared methods *)

Lemma methods_of_FunctionDef c t n : n ∈ methods_of c t → is_FunctionDef n = true.
Proof.
  unfold methods_of. intros Hn. apply list_elem_of_bind in Hn as (x & Hn & _).
  destruct x as [| | |name bs ks bd ds|]; simpl in Hn;
    try by apply elem_of_nil in Hn.
  case_decide; [|by apply elem_of_nil in Hn].
  by apply list_elem_of_In, filter_In in Hn as [_ ?].
Qed.

Lemma function_name_method_name n :
  is_FunctionDef n = true → function_name n = Some (method_name n).
Proof. by destruct n. Qed.

Lemma methods_list_names c tree :
  methods_list (analyze tree) c = method_name <$> methods_of c tree.
Proof.
  rewrite methods_list_analyze.
  pose proof (methods_of_FunctionDef c tree) as H.
  induction (methods_of c tree) as [|n l IH]; [done|].
  change (omap function_name (n :: l))
    with (match function_name n with
          | Some y => y :: omap function_name l
          | None => omap function_name l
          end).
  rewrite function_name_method_name by (apply H; left).
  rewrite IH; [done|]. intros n' Hn'. apply H. by right.
Qed.

Lemma usage_of_pooled c tree method :
  method ∈ methods_of c tree →
  usage_of (analyze tree) c (method_name method)
  = pooled_attrs (methods_of c tree) method.
Proof.
  intros Hm. apply set_eq. intros x.
  rewrite usage_of_analyze, Exists_exists. unfold pooled_attrs, touches.
  rewrite elem_of_union_list. split.
  - intros (m' & Hin & Hname & Hx).
    exists (own_attrs m'). split; [|by apply elem_of_list_to_set].
    apply list_elem_of_fmap. exists m'. split; [done|].
    apply list_elem_of_In, filter_In. split; [by apply list_elem_of_In|].
    apply bool_decide_eq_true_2.
    rewrite function_name_method_name in Hname
      by (by eapply methods_of_FunctionDef).
    by injection Hname.
  - intros (X & HX & Hx). apply list_elem_of_fmap in HX as (m' & -> & Hin).
    apply list_elem_of_In, filter_In in Hin as [Hin Hname].
    apply list_elem_of_In in Hin. apply bool_decide_eq_true_1 in Hname.
    exists m'. split_and!; [done | | by apply elem_of_list_to_set in Hx].
    rewrite function_name_method_name by (by eapply methods_of_FunctionDef).
    by rewrite Hname.
Qed.

Lemma lcom_by_ext sets sets' ms :
  (∀ m, m ∈ ms → sets m = sets' m) → lcom_by sets ms = lcom_by sets' ms.
Proof.
  intros H. unfold lcom_by.
  assert (∀ ij, shares_by sets ms ij = shares_by sets' ms ij) as Hsh.
  { intros [i j]. unfold shares_by. simpl.
    destruct (ms !! i) as [m1|] eqn:Hi; [|done].
    destruct (ms !! j) as [m2|] eqn:Hj; [|done].
    by rewrite (H m1), (H m2) by (by eapply list_elem_of_lookup_2). }
  rewrite (filter_ext_elem_of (shares_by sets ms) (shares_by sets' ms)) by done.
  rewrite (filter_ext_elem_of (λ ij, negb (shares_by sets ms ij))
             (λ ij, negb (shares_by sets' ms ij))); [done|].
  intros ij _. by rewrite Hsh.
Qed.

Lemma lcom_spec_lcom_by c tree :
  lcom_spec (getitem_default ∅ (method_attribute_usage (analyze tree)) c)
            (method_name <$> methods_of c tree)
  = lcom_by (λ m, usage_of (analyze tree) c (method_name m)) (methods_of c tree).
Proof.
  unfold lcom_spec, lcom_P_spec, lcom_Q_spec, lcom_by. rewrite length_fmap.
  assert (∀ ij, shares (getitem_default ∅ (method_attribute_usage (analyze tree)) c)
                  (method_name <$> methods_of c tree) ij
                = shares_by (λ m, usage_of (analyze tree) c (method_name m))
                    (methods_of c tree) ij) as Hsh.
  { intros [i j]. unfold shares, shares_by. simpl. rewrite !list_lookup_fmap.
    destruct (methods_of c tree !! i); [|done].
    by destruct (methods_of c tree !! j). }
  rewrite (filter_ext_elem_of _ _ _ (λ ij _, Hsh ij)).
  rewrite (filter_ext_elem_of
             (λ ij, negb (shares _ (method_name <$> methods_of c tree) ij))
             (λ ij, negb (shares_by (λ m, usage_of (analyze tree) c (method_name m))
                            (methods_of c tree) ij))); [done|].
  intros ij _. by rewrite Hsh.
Qed.

Lemma NoDup_fmap_eq {A B} (f : A → B) (l : list A) (x y : A) :
  NoDup (f <$> l) → x ∈ l → y ∈ l → f x = f y → x = y.
Proof.
  induction l as [|z l IH]; intros Hnd Hx Hy Hf; [by apply elem_of_nil in Hx|].
  change (f <$> z :: l) with (f z :: (f <$> l)) in Hnd.
  apply NoDup_cons in Hnd as [Hz Hnd].
  apply elem_of_cons in Hx as [->|Hx], Hy as [->|Hy]; [done | | |by apply IH].
  - destruct Hz. rewrite Hf. by apply list_elem_of_fmap_2.
  - destruct Hz. rewrite <- Hf. by apply list_elem_of_fmap_2.
Qed.

Lemma pooled_attrs_own ms method :
  NoDup (method_name <$> ms) → method ∈ ms → pooled_attrs ms method = own_attrs method.
Proof.
  intros Hnd Hm. apply set_eq. intros x. unfold pooled_attrs.
  rewrite elem_of_union_list. split.
  - intros (X & HX & Hx). apply list_elem_of_fmap in HX as (m' & -> & Hin).
    apply list_elem_of_In, filter_In in Hin as [Hin Hname].
    apply list_elem_of_In in Hin. apply bool_decide_eq_true_1 in Hname.
    by rewrite <- (NoDup_fmap_eq method_name ms m' method Hnd Hin Hm Hname).
  - intros Hx. exists (own_attrs method). split; [|done].
    apply list_elem_of_fmap. exists method. split; [done|].
    apply list_elem_of_In, filter_In. split; [by apply list_elem_of_In|].
    by apply bool_decide_eq_true_2.
Qed.

(** C3, as stated, fails: of the two methods [f] of [class A] one touches
    [self.a] only and the other [self.b] only, so the pair shares nothing
    and the claim gives [P = 1], LCOM 1; [calculate_lcom] returns 0, since
    both are looked up under the one name [f].  And [class Shape], defined
    twice with one method each time, gets LCOM 1 though its definition
    declares a single method. *)
Lemma calculate_lcom_pools_same_names :
  (lcom_by own_attrs (methods_of "A" unit_same_name_methods) = 1%Z ∧
   (calculate_lcom "A" (analyze unit_same_name_methods)).1 = 0%Z) ∧
  (methods <$> classes (analyze unit_redefined) !! "Shape" = Some ["name"] ∧
   (calculate_lcom "Shape" (analyze unit_redefined)).1 = 1%Z).
Proof. split_and!; by vm_compute. Qed.

(** C3, amended.  [calculate_lcom] works on the method list of the class
    name: the function definitions found directly in the bodies of all
    definitions of that name in the unit, in visiting order, same-named
    ones kept apart.  It returns [max(P − Q, 0)], where over every
    unordered pair of distinct positions of that list [Q] counts the pairs
    whose attribute sets intersect and [P] the other pairs, the attribute
    set of a method being that of its name: the attributes touched through
    [self] by any listed method of the same name.  It returns 0 for a list
    of at most one method.  When the listed methods have distinct names,
    each method counts with its own attribute-access set. *)
Theorem calculate_lcom_on_unit (tree : node) (c : string) :
  (calculate_lcom c (analyze tree)).1
    = lcom_by (pooled_attrs (methods_of c tree)) (methods_of c tree) ∧
  (length (methods_of c tree) ≤ 1 → (calculate_lcom c (analyze tree)).1 = 0%Z) ∧
  (NoDup (method_name <$> methods_of c tree) →
   (calculate_lcom c (analyze tree)).1 = lcom_by own_attrs (methods_of c tree)).
Proof.
  assert (Hpooled : (calculate_lcom c (analyze tree)).1
                    = lcom_by (pooled_attrs (methods_of c tree)) (methods_of c tree)).
  { rewrite calculate_lcom_value. fold (methods_list (analyze tree) c).
    rewrite methods_list_names, lcom_spec_lcom_by.
    apply lcom_by_ext. intros m Hm. by apply usage_of_pooled. }
  split_and!; [exact Hpooled | |].
  - intros Hlen. unfold calculate_lcom.
    fold (methods_list (analyze tree) c). rewrite methods_list_names, length_fmap.
    by rewrite bool_decide_eq_true_2.
  - intros Hnd. rewrite Hpooled. apply lcom_by_ext. intros m Hm.
    by apply pooled_attrs_own.
Qed.

Lemma calculate_lcom_on_unit_witness :
  (calculate_lcom "Person" (analyze unit_two_methods)).1 = 0%Z ∧
  (calculate_lcom "Student" (analyze unit_two_methods)).1
  = lcom_by own_attrs (methods_of "Student" unit_two_methods).
Proof.
  split.
  - destruct (calculate_lcom_on_unit unit_two_methods "Person") as (_ & H & _).
    apply H. vm_compute. lia.
  - destruct (calculate_lcom_on_unit unit_two_methods "Student") as (_ & _ & H).
    apply H.
    change (method_name <$> methods_of "Student" unit_two_methods)
      with ["register_course"; "add_grade"].
    apply NoDup_cons. split; [|apply NoDup_singleton].
    rewrite list_elem_of_singleton. discriminate.
Defined.
